(** * Swap-Pricer: cashflow schedule, valuation summary and analysis service

    A shallow embedding of [src/App.tsx] (the helpers [formatDate],
    [addMonths], [getFrequencyMonths], the generator
    [generateSmartCashflows] and the summary computed by [handleCalculate])
    and of [src/services/aiService.ts] ([analyzeSwapDeal]).

    JavaScript numbers are IEEE 754 binary64 values, embedded as Rocq's
    primitive [float]; integer-valued numbers that only count ([period],
    the month step) are embedded as [Z] and enter float arithmetic through
    [Num.ofZ].  The host supplies what ECMAScript leaves to the
    implementation: the local time zone adjustment, [Math.pow] and the
    values returned by [Math.random]. *)

From Stdlib Require Import ZArith List Lia Bool String Ascii Floats.
Import ListNotations.

Set Warnings "-inexact-float".
Local Open Scope Z_scope.

(** ** Completions: a call returns or throws; [Diverge] marks a loop that
    ran out of fuel *)

Module JS.

Inductive Exception : Type :=
| RangeError
| TypeError.

Inductive Completion (A : Type) : Type :=
| Normal (a : A)
| Throw (e : Exception)
| Diverge.

Arguments Normal {A} a.
Arguments Throw {A} e.
Arguments Diverge {A}.

(** Code that reads and updates a state [S]. *)
Definition M (S A : Type) : Type := S -> Completion (A * S).

Definition ret {S A} (a : A) : M S A := fun st => Normal (a, st).

Definition bind {S A B} (m : M S A) (k : A -> M S B) : M S B :=
fun st =>
  match m st with
  | Normal (a, st') => k a st'
  | Throw e => Throw e
  | Diverge => Diverge
  end.

Definition get {S} : M S S := fun st => Normal (st, st).

Definition lift {S A} (c : Completion A) : M S A :=
fun st =>
  match c with
  | Normal a => Normal (a, st)
  | Throw e => Throw e
  | Diverge => Diverge
  end.

Definition diverge {S A} : M S A := fun _ => Diverge.

End JS.

Notation "x <- m ;; k" := (JS.bind m (fun x => k))
  (at level 61, m at next level, right associativity).

(** ** Numbers *)

Module Num.

Definition prec : Z := 53.
Definition emax : Z := 1024.

(** The Number value of a mathematical integer. *)
Definition ofZ (z : Z) : float :=
  SF2Prim (binary_normalize prec emax z 0 false).

(** [Number.prototype.toFixed(f)] followed by [Number(...)], for the
    finite double [m * 2^e]:  the integer [n] for which [n / 10^f] is
    closest to the value, the larger one on a tie. *)
Definition scaledNearest (f : Z) (m : positive) (e : Z) : Z :=
  let a := Zpos m * 10 ^ f in
  if 0 <=? e then a * 2 ^ e
  else (2 * a + 2 ^ (- e)) / 2 ^ (1 - e).

(** [toFixed] prints values of magnitude [1e21] and above with
    [ToString], which [Number] reads back unchanged. *)
Definition atLeast1e21 (m : positive) (e : Z) : bool :=
  if 0 <=? e then 10 ^ 21 <=? Zpos m * 2 ^ e
  else 10 ^ 21 * 2 ^ (- e) <=? Zpos m.

(** The Number value of the decimal literal [n / 10^f], correctly
    rounded. *)
Definition decimalToNumber (s : bool) (n : positive) (f : Z) : float :=
  SF2Prim (SFdiv prec emax (S754_finite s n 0)
                           (S754_finite false (Z.to_pos (10 ^ f)) 0)).

(** [Number(x.toFixed(f))]. *)
Definition toFixedNumber (f : Z) (x : float) : float :=
  match Prim2SF x with
  | S754_finite s m e =>
      if atLeast1e21 m e then x
      else match scaledNearest f m e with
           | Zpos n => decimalToNumber s n f
           | _ => if s then (-0)%float else 0%float
           end
  | S754_zero _ => 0%float
  | _ => x
  end.

End Num.

(** ** The Date built-in *)

Module JSDate.

Definition msPerDay : Z := 86400000.

Definition Day (t : Z) : Z := t / msPerDay.
Definition TimeWithinDay (t : Z) : Z := t mod msPerDay.

(** Day number, counted from 1 March of year 0, of 1 March of year [y]
    (proleptic Gregorian calendar: 400 years are 146097 days). *)
Definition marchYearStart (y : Z) : Z :=
y / 400 * 146097 + (y mod 400 * 365 + y mod 400 / 4 - y mod 400 / 100).

(** Day number (from the epoch, 1 January 1970) of the first day of the
    month with index [idx], where index [12 * y + m] is month [m] (0 to
    11) of year [y].  Months are counted from March, so that the leap day
    ends the year: month [k] of a March-based year starts
    [(153 * k + 2) / 5] days into it. *)
Definition firstOfMonth (idx : Z) : Z :=
let k := idx - 2 in
marchYearStart (k / 12) + (153 * (k mod 12) + 2) / 5 - 719468.

(** Month index and day of the month (1 to 31) of a day number: the
    400-year era, the century in it, the 4-year cycle, the year, then the
    month. *)
Definition monthAndDay (d : Z) : Z * Z :=
let z := d + 719468 in
let era := z / 146097 in
let doe := z mod 146097 in
let c := Z.min (doe / 36524) 3 in
let dc := doe - 36524 * c in
let q := dc / 1461 in
let dq := dc mod 1461 in
let yq := Z.min (dq / 365) 3 in
let doy := dq - 365 * yq in
let yoe := 100 * c + 4 * q + yq in
let mp := (5 * doy + 2) / 153 in
let dd := doy - (153 * mp + 2) / 5 + 1 in
(12 * (400 * era + yoe) + mp + 2, dd).

(** Year, month (0 to 11) and day of the month of a day number. *)
Definition civilFromDay (d : Z) : Z * Z * Z :=
let '(idx, dd) := monthAndDay d in (idx / 12, idx mod 12, dd).

Definition YearFromTime (t : Z) : Z := fst (fst (civilFromDay (Day t))).
Definition MonthFromTime (t : Z) : Z := snd (fst (civilFromDay (Day t))).
Definition DateFromTime (t : Z) : Z := snd (civilFromDay (Day t)).

(** [MakeDay]: the month may lie outside 0..11 and the day outside the
    month; both carry over. *)
Definition MakeDay (year month date : Z) : Z :=
  firstOfMonth (12 * year + month) + date - 1.

Definition MakeDate (day time : Z) : Z := day * msPerDay + time.

Definition DaysInMonth (year month : Z) : Z :=
  MakeDay year (month + 1) 1 - MakeDay year month 1.

(** A Date object is its time value: milliseconds since the epoch, or
    [None] for NaN (an Invalid Date). *)
Definition Date : Type := option Z.

Definition TimeClip (t : Z) : Date :=
  if Z.abs t <=? 8640000000000000 then Some t else None.

Section LocalTime.
(** Local time zone adjustment of the host in milliseconds, taken as
    constant (no daylight saving transitions).  A host whose offset
    changes during the year is not covered. *)
Variable LocalTZA : Z.

Definition LocalTime (t : Z) : Z := t + LocalTZA.
Definition UTC (t : Z) : Z := t - LocalTZA.

(** [d.getMonth()]; [None] is NaN. *)
Definition getMonth (d : Date) : option Z :=
  match d with
  | Some t => Some (MonthFromTime (LocalTime t))
  | None => None
  end.

(** [d.setMonth(month)], as the new time value. *)
Definition setMonth (d : Date) (month : option Z) : Date :=
  match d, month with
  | Some tv, Some m =>
      let t := LocalTime tv in
      let newDate :=
        MakeDate (MakeDay (YearFromTime t) m (DateFromTime t))
                 (TimeWithinDay t) in
      TimeClip (UTC newDate)
  | _, _ => None
  end.
End LocalTime.

(** *** Decimal fields *)

Definition digitChar (v : Z) : ascii := ascii_of_nat (Z.to_nat (48 + v)).

Definition digitVal (c : ascii) : option Z :=
  let n := Z.of_nat (nat_of_ascii c) in
  if (48 <=? n) && (n <=? 57) then Some (n - 48) else None.

(** [z] written with exactly [w] decimal digits. *)
Fixpoint digitsOf (w : nat) (z : Z) : string :=
  match w with
  | O => EmptyString
  | S w' =>
      (digitsOf w' (z / 10) ++ String (digitChar (z mod 10)) EmptyString)%string
  end.

(** Reads exactly [w] decimal digits. *)
Fixpoint readDigits (w : nat) (acc : Z) (s : string) : option (Z * string) :=
  match w with
  | O => Some (acc, s)
  | S w' =>
      match s with
      | String c s' =>
          match digitVal c with
          | Some v => readDigits w' (10 * acc + v) s'
          | None => None
          end
      | EmptyString => None
      end
  end.

Definition readChar (c : ascii) (s : string) : option string :=
  match s with
  | String c' s' => if Ascii.eqb c c' then Some s' else None
  | EmptyString => None
  end.

(** *** [new Date(string)] for the date-only form [YYYY-MM-DD]

    This is the form an [<input type="date">] produces; for a day that
    exists it denotes midnight UTC.  [parse] covers these strings only:
    it returns [None] for every other string, also for one that an
    implementation's [new Date] reads by rules of its own (a date-time,
    a day past the end of its month).  What is stated about dates is
    stated for strings that [parse] accepts. *)
Definition parse (s : string) : Date :=
  match readDigits 4 0 s with
  | Some (y, s1) =>
    match readChar "-" s1 with
    | Some s2 =>
      match readDigits 2 0 s2 with
      | Some (m, s3) =>
        match readChar "-" s3 with
        | Some s4 =>
          match readDigits 2 0 s4 with
          | Some (d, EmptyString) =>
              if (1 <=? m) && (m <=? 12) && (1 <=? d)
                 && (d <=? DaysInMonth y (m - 1))
              then TimeClip (MakeDate (MakeDay y (m - 1) d) 0)
              else None
          | _ => None
          end
        | None => None
        end
      | None => None
      end
    | None => None
    end
  | None => None
  end.

(** *** [toISOString] *)

Definition yearString (y : Z) : string :=
  if (0 <=? y) && (y <=? 9999) then digitsOf 4 y
  else if 0 <=? y then String "+" (digitsOf 6 y)
  else String "-" (digitsOf 6 (- y)).

Definition dateString (t : Z) : string :=
  (yearString (YearFromTime t)
    ++ String "-" (digitsOf 2 (MonthFromTime t + 1))
    ++ String "-" (digitsOf 2 (DateFromTime t)))%string.

Definition timeString (t : Z) : string :=
  let ms := TimeWithinDay t in
  (digitsOf 2 (ms / 3600000)
    ++ String ":" (digitsOf 2 (ms / 60000 mod 60))
    ++ String ":" (digitsOf 2 (ms / 1000 mod 60))
    ++ String "." (digitsOf 3 (ms mod 1000))
    ++ String "Z" EmptyString)%string.

(** [d.toISOString()] throws a RangeError on an Invalid Date. *)
Definition toISOString (d : Date) : JS.Completion string :=
  match d with
  | Some t => JS.Normal (dateString t ++ String "T" (timeString t))%string
  | None => JS.Throw JS.RangeError
  end.

(** [s.split('T')[0]]: the part of [s] before its first ['T']. *)
Fixpoint beforeT (s : string) : string :=
  match s with
  | EmptyString => EmptyString
  | String c s' => if Ascii.eqb c "T" then EmptyString else String c (beforeT s')
  end.

(** [a <= b] on Date objects compares time values; it is false when
    either is NaN. *)
Definition leb (a b : Date) : bool :=
  match a, b with
  | Some x, Some y => x <=? y
  | _, _ => false
  end.

End JSDate.

(** ** The host *)

Record Host : Type := {
  (** local time zone adjustment in milliseconds, the same at all times *)
  LocalTZA : Z;
  (** [Math.pow], an implementation-approximated function *)
  Math_pow : float -> float -> float;
  (** the value returned by the [n]-th call of [Math.random] *)
  Math_random : nat -> float;
  (** [Number::toString], as used by template literals *)
  Number_toString : float -> string;
  (** [x.toLocaleString()]; [Some d] asks for exactly [d] fraction digits *)
  Number_toLocaleString : option Z -> float -> string
}.

(** ** src/types.ts and src/App.tsx *)

Module Pricer.

Inductive LegType : Type := Fixed | Floating.

Inductive DealStatus : Type := Active | Pending | Matured.

Record SwapLeg : Type := {
  currency : string;
  notional : float;
  rate : float;
  type : LegType;
  frequency : string;
  convention : string
}.

Record SwapDeal : Type := {
  id : option string;
  status : option DealStatus;
  valueDate : string;
  startDate : string;
  endDate : string;
  leg1 : SwapLeg;
  leg2 : SwapLeg
}.

Record CashflowRow : Type := {
  date : string;
  leg1Flow : float;
  leg2Flow : float;
  discountFactor : float;
  presentValue : float
}.

Record PricingResult : Type := {
  npvTotal : float;
  npvTotalFormatted : string;
  spread : float;
  principal : float;
  leg1Npv : float;
  leg2Npv : float;
  cashflows : list CashflowRow
}.

(** What a call can observe and change: the deal object its argument
    refers to, and how many values [Math.random] has handed out. *)
Record World : Type := {
  dealObject : SwapDeal;
  randomCalls : nat
}.

Definition formatDate (date : JSDate.Date) : JS.Completion string :=
match JSDate.toISOString date with
| JS.Normal s => JS.Normal (JSDate.beforeT s)
| JS.Throw e => JS.Throw e
| JS.Diverge => JS.Diverge
end.

Definition getFrequencyMonths (freq : string) : Z :=
if String.eqb freq "Monthly" then 1
else if String.eqb freq "Quarterly" then 3
else if String.eqb freq "Semi-Annual" then 6
else if String.eqb freq "Annual" then 12
else 3.

Section WithHost.
Variable h : Host.

Definition addMonths (date : JSDate.Date) (months : Z) : JSDate.Date :=
let newDate := date in
JSDate.setMonth (LocalTZA h) newDate
  (option_map (fun m => m + months) (JSDate.getMonth (LocalTZA h) newDate)).

(** One call of [Math.random()]. *)
Definition random : JS.M World float :=
fun w =>
  JS.Normal (Math_random h (randomCalls w),
             {| dealObject := dealObject w; randomCalls := S (randomCalls w) |}).

(** Reading through the reference [deal]. *)
Definition deref : JS.M World SwapDeal :=
fun w => JS.Normal (dealObject w, w).

Definition effectiveRate (leg : SwapLeg) : JS.M World float :=
match type leg with
| Floating => u <- random ;; JS.ret (rate leg + (u * 0.5 - 0.25))%float
| Fixed => JS.ret (rate leg)
end.

(** The body of the [while] loop up to [rows.push]. *)
Definition cashflowRow (monthsToAdd : Z) (currentDate : JSDate.Date)
  (period : Z) : JS.M World CashflowRow :=
dateStr <- JS.lift (formatDate currentDate) ;;
let timeFraction := (Num.ofZ monthsToAdd / 12)%float in
deal <- deref ;;
leg1Rate <- effectiveRate (leg1 deal) ;;
leg2Rate <- effectiveRate (leg2 deal) ;;
let leg1Interest :=
  (notional (leg1 deal) * (leg1Rate / 100) * timeFraction)%float in
let leg2Interest :=
  (notional (leg2 deal) * (leg2Rate / 100) * timeFraction)%float in
let discountFactor :=
  (1 / Math_pow h 1.04 (Num.ofZ period * timeFraction))%float in
let fxRate := 1%float in
let netFlow := (leg1Interest - leg2Interest)%float in
JS.ret {|
  date := dateStr;
  leg1Flow := Num.toFixedNumber 2 leg1Interest;
  leg2Flow := Num.toFixedNumber 2 (- leg2Interest)%float;
  discountFactor := Num.toFixedNumber 4 discountFactor;
  presentValue :=
    Num.toFixedNumber 2
      (abs leg1Interest - abs leg2Interest * discountFactor)%float
|}.

(** The [while (currentDate <= end)] loop.  [fuel] bounds the number of
    iterations; running out of it is [JS.Diverge]. *)
Fixpoint cashflowLoop (fuel : nat) (monthsToAdd : Z)
  (endD currentDate : JSDate.Date) (period : Z)
  (rows : list CashflowRow) : JS.M World (list CashflowRow) :=
if JSDate.leb currentDate endD then
  match fuel with
  | O => JS.diverge
  | S fuel' =>
      row <- cashflowRow monthsToAdd currentDate period ;;
      cashflowLoop fuel' monthsToAdd endD
        (addMonths currentDate monthsToAdd) (period + 1) (rows ++ [row])
  end
else JS.ret rows.

(** Every iteration moves the cursor by at least 28 days, which bounds
    the number of iterations left. *)
Definition loopBound (currentDate endD : JSDate.Date) : nat :=
match currentDate, endD with
| Some c, Some e => Z.to_nat ((e - c) / (28 * JSDate.msPerDay) + 1)
| _, _ => O
end.

(** [generateSmartCashflows(deal)], where [deal] refers to the deal
    object of the world. *)
Definition generateSmartCashflows : JS.M World (list CashflowRow) :=
let rows := [] in
deal <- deref ;;
let start := JSDate.parse (startDate deal) in
let endD := JSDate.parse (endDate deal) in
let currentDate := start in
let monthsToAdd := getFrequencyMonths (frequency (leg1 deal)) in
let currentDate := addMonths currentDate monthsToAdd in
let period := 1 in
cashflowLoop (loopBound currentDate endD) monthsToAdd endD
  currentDate period rows.

(** The pricing result [handleCalculate(inputDeal)] builds from the rows.
    The identifier it generates and the view state it updates afterwards
    are outside this model. *)
Definition handleCalculate : JS.M World PricingResult :=
cashflows <- generateSmartCashflows ;;
let sumPv :=
  fold_left (fun acc row => (acc + presentValue row)%float) cashflows 0%float in
let leg1Sum :=
  fold_left (fun acc row => (acc + leg1Flow row)%float) cashflows 0%float in
let leg2Sum :=
  fold_left (fun acc row => (acc + leg2Flow row)%float) cashflows 0%float in
inputDeal <- deref ;;
let principal := notional (leg2 inputDeal) in
JS.ret {|
  npvTotal := sumPv;
  npvTotalFormatted :=
    ("USD " ++ Number_toLocaleString h (Some 2) sumPv)%string;
  spread :=
    (abs (rate (leg1 inputDeal) - rate (leg2 inputDeal)) * 100)%float;
  principal := principal;
  leg1Npv := leg1Sum;
  leg2Npv := leg2Sum;
  cashflows := cashflows
|}.

End WithHost.

End Pricer.

(** ** src/services/aiService.ts *)

Module AiService.

Import Pricer.

(** How an awaited promise settles. *)
Inductive Settled (A : Type) : Type :=
| Fulfilled (a : A)
| Rejected.

Arguments Fulfilled {A} a.
Arguments Rejected {A}.

(** The response of the remote model; [text] may be undefined. *)
Record GenerateContentResponse : Type := {
  text : option string
}.

Record Env : Type := {
  (** [process.env.API_KEY] *)
  API_KEY : option string;
  (** [ai.models.generateContent({ model, contents })] *)
  generateContent : string -> string -> Settled GenerateContentResponse
}.

(** Truthiness of a possibly undefined string. *)
Definition truthy (s : option string) : bool :=
match s with
| Some EmptyString => false
| Some _ => true
| None => false
end.

(** [s || fallback] for a possibly undefined string [s]. *)
Definition orElse (s : option string) (fallback : string) : string :=
match s with
| Some EmptyString => fallback
| Some t => t
| None => fallback
end.

Definition newline : string := String (ascii_of_nat 10) EmptyString.

Definition legTypeString (t : LegType) : string :=
match t with
| Fixed => "Fixed"
| Floating => "Floating"
end.

Section WithHost.
Variable h : Host.

Definition legLine (label : string) (leg : SwapLeg) : string :=
("    - " ++ label ++ ": " ++ currency leg ++ " "
  ++ Number_toLocaleString h None (notional leg) ++ " @ "
  ++ Number_toString h (rate leg) ++ "% (" ++ legTypeString (type leg) ++ ")")%string.

Definition analysisPrompt (deal : SwapDeal) (result : PricingResult) : string :=
String.concat newline [
  ""%string;
  "    Act as a senior financial derivative analyst. Analyze the following Cross-Currency Swap deal and its pricing results."%string;
  "    "%string;
  "    **Deal Parameters:**"%string;
  ("    - Maturity: " ++ startDate deal ++ " to " ++ endDate deal)%string;
  legLine "Leg 1 (Payer)" (leg1 deal);
  legLine "Leg 2 (Receiver)" (leg2 deal);
  ""%string;
  "    **Pricing Results:**"%string;
  ("    - Total NPV: " ++ npvTotalFormatted result)%string;
  ("    - Spread: " ++ Number_toString h (spread result) ++ " bps")%string;
  ("    - Leg 1 NPV: " ++ currency (leg1 deal) ++ " "
     ++ Number_toLocaleString h None (leg1Npv result))%string;
  ("    - Leg 2 NPV: " ++ currency (leg2 deal) ++ " "
     ++ Number_toLocaleString h None (leg2Npv result))%string;
  ""%string;
  "    **Instructions:**"%string;
  "    1. Briefly explain the economic rationale of this trade."%string;
  "    2. Highlight any arbitrage opportunities or risks based on the NPV."%string;
  "    3. Comment on the interest rate differential."%string;
  "    4. Keep it concise (under 150 words) and professional."%string;
  "  "%string ].

(** [analyzeSwapDeal(deal, result)]: how the returned promise settles.
    The [console.error] of the [catch] branch is not modelled. *)
Definition analyzeSwapDeal (env : Env) (deal : SwapDeal)
  (result : PricingResult) : Settled string :=
if negb (truthy (API_KEY env)) then
  Fulfilled "API Key missing. Unable to perform AI analysis."%string
else
  let prompt := analysisPrompt deal result in
  match generateContent env "gemini-2.5-flash" prompt with
  | Fulfilled response =>
      Fulfilled (orElse (text response) "No analysis generated.")
  | Rejected =>
      Fulfilled "Failed to generate analysis. Please check your connection or API limits."%string
  end.

End WithHost.

End AiService.

(** ** Vocabulary of the specification *)

Module Spec.

Import Pricer.

(** The world in which [generateSmartCashflows(deal)] is called after
    [n] earlier calls of [Math.random]. *)
Definition world (deal : SwapDeal) (n : nat) : World :=
{| dealObject := deal; randomCalls := n |}.

(** "[stepMonths] = the number of months corresponding to leg 1's
    frequency". *)
Definition stepMonths (deal : SwapDeal) : Z :=
getFrequencyMonths (frequency (leg1 deal)).

(** "[timeFraction = stepMonths / 12]". *)
Definition timeFraction (deal : SwapDeal) : float :=
(Num.ofZ (stepMonths deal) / 12)%float.

(** Calls of [Math.random] a leg costs per period. *)
Definition draws (leg : SwapLeg) : nat :=
match type leg with
| Floating => 1%nat
| Fixed => 0%nat
end.

Definition drawsPerRow (deal : SwapDeal) : nat :=
(draws (leg1 deal) + draws (leg2 deal))%nat.

(** The perturbation of a floating rate for the value [u] drawn from the
    random source. *)
Definition perturbation (u : float) : float := (u * 0.5 - 0.25)%float.

(** The effective rate of a leg when its draw, if it makes one, is call
    number [n] of [Math.random]. *)
Definition effectiveRateAt (h : Host) (leg : SwapLeg) (n : nat) : float :=
match type leg with
| Floating => (rate leg + perturbation (Math_random h n))%float
| Fixed => rate leg
end.

(** "[interest = notional × (effectiveRate / 100) × timeFraction]". *)
Definition interest (leg : SwapLeg) (effectiveRate timeFraction : float) : float :=
(notional leg * (effectiveRate / 100) * timeFraction)%float.

(** "[1 / (1.04)^(period × timeFraction)]". *)
Definition discount (h : Host) (deal : SwapDeal) (period : Z) : float :=
(1 / Math_pow h 1.04 (Num.ofZ period * timeFraction deal))%float.

(** The cursor of the row with index [i] (period [i + 1]). *)
Fixpoint paymentDate (h : Host) (deal : SwapDeal) (i : nat) {struct i}
  : JSDate.Date :=
match i with
| O => addMonths h (JSDate.parse (startDate deal)) (stepMonths deal)
| S j => addMonths h (paymentDate h deal j) (stepMonths deal)
end.

(** The row pushed for cursor [cur] and period [period] when [n] values
    have been drawn before. *)
Definition rowAt (h : Host) (deal : SwapDeal) (cur : JSDate.Date)
  (period : Z) (n : nat) : CashflowRow :=
let tf := timeFraction deal in
let i1 := interest (leg1 deal) (effectiveRateAt h (leg1 deal) n) tf in
let i2 :=
  interest (leg2 deal)
    (effectiveRateAt h (leg2 deal) (n + draws (leg1 deal))) tf in
{| date := match cur with
           | Some t => JSDate.dateString t
           | None => EmptyString
           end;
   leg1Flow := Num.toFixedNumber 2 i1;
   leg2Flow := Num.toFixedNumber 2 (- i2)%float;
   discountFactor := Num.toFixedNumber 4 (discount h deal period);
   presentValue :=
     Num.toFixedNumber 2 (abs i1 - abs i2 * discount h deal period)%float |}.

(** The rows of a run that pushes [n] of them, starting after [st]
    draws. *)
Definition rowsOf (h : Host) (deal : SwapDeal) (st n : nat) : list CashflowRow :=
map (fun i => rowAt h deal (paymentDate h deal i) (Z.of_nat i + 1)
                    (st + i * drawsPerRow deal))
    (seq 0 n).

(** Month index and day of the month of a time value, read in the
    host's local time. *)
Definition localMonth (h : Host) (t : Z) : Z :=
fst (JSDate.monthAndDay (JSDate.Day (JSDate.LocalTime (LocalTZA h) t))).

Definition localDay (h : Host) (t : Z) : Z :=
snd (JSDate.monthAndDay (JSDate.Day (JSDate.LocalTime (LocalTZA h) t))).


(** [rows.reduce((acc, row) => acc + f(row), 0)]. *)
Definition sumOf (f : CashflowRow -> float) (rows : list CashflowRow) : float :=
fold_left (fun acc row => (acc + f row)%float) rows 0%float.

(** Strings without the letter T. *)
Definition noT (s : string) : Prop := JSDate.beforeT s = s.

(** Midnight of 1 January of year 0 and the last millisecond of year
    9999: the range of the dates [JSDate.parse] accepts. *)
Definition minTime : Z := -62167219200000.
Definition maxTime : Z := 253402300799999.

(** Cursors of a loop that starts at [c] and steps by [k] months. *)
Fixpoint cursorFrom (h : Host) (k : Z) (c : JSDate.Date) (i : nat) {struct i}
  : JSDate.Date :=
match i with
| O => c
| S j => cursorFrom h k (addMonths h c k) j
end.

End Spec.

(** ** Example hosts and deals *)

Module Examples.

Import Pricer.

(** [sum_k x^k / k!] for the first [n] terms after term [k], by Horner's
    rule. *)
Fixpoint expTail (n : nat) (k : Z) (x : float) : float :=
match n with
| O => 1%float
| S n' => (1 + x / Num.ofZ k * expTail n' (k + 1) x)%float
end.

(** [sum_j z^(2j) / (2j + 1)] for [n] terms from [j = k]. *)
Fixpoint atanhTail (n : nat) (k : Z) (z2 : float) : float :=
match n with
| O => 0%float
| S n' => (1 / Num.ofZ (2 * k + 1) + z2 * atanhTail n' (k + 1) z2)%float
end.

(** A [Math.pow] for bases near 1, as [exp (e * ln b)] with
    [ln b = 2 atanh ((b - 1) / (b + 1))], both by their power series. *)
Definition seriesPow (b e : float) : float :=
let z := ((b - 1) / (b + 1))%float in
let ln := (2 * z * atanhTail 12 0 (z * z))%float in
expTail 40 1 (e * ln)%float.

(** A host whose local time is UTC. *)
Definition utcHost (pow : float -> float -> float) (rnd : nat -> float) : Host :=
{| LocalTZA := 0;
   Math_pow := pow;
   Math_random := rnd;
   Number_toString := fun _ => "0"%string;
   Number_toLocaleString := fun _ _ => "0"%string |}.

(** A host three hours behind UTC. *)
Definition westHost (pow : float -> float -> float) (rnd : nat -> float) : Host :=
{| LocalTZA := -10800000;
   Math_pow := pow;
   Math_random := rnd;
   Number_toString := fun _ => "0"%string;
   Number_toLocaleString := fun _ _ => "0"%string |}.

(** Draws that cycle through 0, 0.25, 0.5 and 0.75. *)
Definition cyclicRandom (n : nat) : float :=
(Num.ofZ (Z.of_nat n mod 4) / 4)%float.

Definition exampleHost : Host := utcHost seriesPow cyclicRandom.

Definition leg (t : LegType) (n r : float) (freq : string) : SwapLeg :=
{| currency := "USD"; notional := n; rate := r; type := t;
   frequency := freq; convention := "Actual/365" |}.

Definition deal (from to : string) (l1 l2 : SwapLeg) : SwapDeal :=
{| id := None; status := None; valueDate := from;
   startDate := from; endDate := to; leg1 := l1; leg2 := l2 |}.

(** The scenario of the specification: two quarterly periods, both legs
    fixed at 4% on a notional of 1,000,000. *)
Definition scenarioDeal : SwapDeal :=
deal "2024-10-01" "2025-04-01"
  (leg Fixed 1000000 4 "Quarterly") (leg Fixed 1000000 4 "Quarterly").

(** One monthly period at 1% on a notional of 1,000. *)
Definition smallDeal : SwapDeal :=
deal "2025-01-01" "2025-02-01"
  (leg Fixed 1000 1 "Monthly") (leg Fixed 1000 1 "Monthly").



(** Both legs floating. *)
Definition floatingDeal : SwapDeal :=
deal "2024-10-01" "2025-04-01"
  (leg Floating 10000000 1.25 "Quarterly") (leg Floating 1850000 3.75 "Semi-Annual").

(** The end date precedes the start date. *)
Definition backwardsDeal : SwapDeal :=
deal "2025-04-01" "2024-10-01"
  (leg Fixed 1000000 4 "Quarterly") (leg Floating 1000000 4 "Quarterly").

End Examples.

(** ** src/App.tsx: the state of [App] and of [ResultsPage] *)

From Stdlib Require Import DecimalNat DecimalString.

Module App.

Import Pricer.

Inductive Page : Type := DASHBOARD | PRICER | RESULTS | SETTINGS.

(** [n.toString()] for a non-negative integer [n]. *)
Definition natToString (n : nat) : string :=
NilEmpty.string_of_uint (Nat.to_uint n).

Fixpoint repeatChar (c : ascii) (n : nat) : string :=
match n with
| O => EmptyString
| S n' => String c (repeatChar c n')
end.

(** [s.padStart(targetLength, c)] for a pad string of one character. *)
Definition padStart (targetLength : nat) (c : ascii) (s : string) : string :=
(repeatChar c (targetLength - String.length s) ++ s)%string.

(** The state [App] holds with [useState], and the number of values
    [Math.random] has handed out. *)
Record State : Type := {
  currentPage : Page;
  currentDeal : option SwapDeal;
  pricingResult : option PricingResult;
  deals : list SwapDeal;
  randomUsed : nat
}.

(** The initial mock data. *)
Definition initialDeals : list SwapDeal :=
[ {| id := Some "SWP-001"%string; status := Some Active;
     valueDate := "2024-01-01"; startDate := "2024-01-03";
     endDate := "2025-12-31";
     leg1 := {| currency := "BRL"; notional := 5000000; rate := 1.1;
                type := Floating; frequency := "Quarterly";
                convention := "Actual/365" |};
     leg2 := {| currency := "USD"; notional := 1000000; rate := 4.5;
                type := Fixed; frequency := "Semi-Annual";
                convention := "30/360" |} |};
  {| id := Some "SWP-002"%string; status := Some Active;
     valueDate := "2024-02-15"; startDate := "2024-02-17";
     endDate := "2026-06-15";
     leg1 := {| currency := "EUR"; notional := 2500000; rate := 0.5;
                type := Floating; frequency := "Semi-Annual";
                convention := "Actual/360" |};
     leg2 := {| currency := "JPY"; notional := 350000000; rate := 0.1;
                type := Fixed; frequency := "Annual";
                convention := "Actual/365" |} |};
  {| id := Some "SWP-003"%string; status := Some Pending;
     valueDate := "2023-08-29"; startDate := "2023-09-01";
     endDate := "2024-09-01";
     leg1 := {| currency := "GBP"; notional := 1000000; rate := 1.5;
                type := Fixed; frequency := "Annual";
                convention := "Actual/365" |};
     leg2 := {| currency := "AUD"; notional := 1800000; rate := 3.2;
                type := Floating; frequency := "Quarterly";
                convention := "Actual/365" |} |} ].

(** The identifier [handleCalculate] generates when the deals so far are
    [deals]: ["SWP-"] and their number plus one, in at least 3 digits. *)
Definition newId (deals : list SwapDeal) : string :=
("SWP-" ++ padStart 3 "0" (natToString (List.length deals + 1)))%string.

(** The state of the first render, after [n] earlier draws. *)
Definition initialState (n : nat) : State :=
{| currentPage := DASHBOARD; currentDeal := None; pricingResult := None;
   deals := initialDeals; randomUsed := n |}.

Definition setPage (p : Page) (st : State) : State :=
{| currentPage := p; currentDeal := currentDeal st;
   pricingResult := pricingResult st; deals := deals st;
   randomUsed := randomUsed st |}.

Section WithHost.
Variable h : Host.

(** [handleCalculate(inputDeal)], run on the state of the last render:
    the identifier, the pricing result, the new deal and the four state
    updates.  A call that throws updates nothing. *)
Definition handleCalculate (st : State) (inputDeal : SwapDeal)
  : JS.Completion State :=
match Pricer.handleCalculate h
        {| dealObject := inputDeal; randomCalls := randomUsed st |} with
| JS.Normal (result, w) =>
    let newDeal :=
      {| id := Some (newId (deals st)); status := Some Active;
         valueDate := valueDate inputDeal; startDate := startDate inputDeal;
         endDate := endDate inputDeal;
         leg1 := leg1 inputDeal; leg2 := leg2 inputDeal |} in
    JS.Normal
      {| currentPage := RESULTS;
         currentDeal := Some newDeal;
         pricingResult := Some result;
         deals := newDeal :: deals st;
         randomUsed := randomCalls w |}
| JS.Throw e => JS.Throw e
| JS.Diverge => JS.Diverge
end.

(** What the user can do to [App]: the buttons of [Sidebar],
    [MobileHeader] and [Dashboard] call [setPage] with [DASHBOARD] or
    [PRICER], and the button of [PricerForm] calls [handleCalculate] with
    the deal of the form. *)
Inductive Event : Type :=
| NavigateDashboard
| NavigatePricer
| Calculate (inputDeal : SwapDeal).

Definition step (st : State) (ev : Event) : JS.Completion State :=
match ev with
| NavigateDashboard => JS.Normal (setPage DASHBOARD st)
| NavigatePricer => JS.Normal (setPage PRICER st)
| Calculate inputDeal => handleCalculate st inputDeal
end.

Fixpoint run (st : State) (events : list Event) : JS.Completion State :=
match events with
| [] => JS.Normal st
| ev :: rest =>
    match step st ev with
    | JS.Normal st' => run st' rest
    | JS.Throw e => JS.Throw e
    | JS.Diverge => JS.Diverge
    end
end.

End WithHost.

(** What [App] renders inside [<main>]. *)
Inductive MainView : Type :=
| ShowDashboard (deals : list SwapDeal)
| ShowPricerForm
| ShowResults (deal : SwapDeal) (result : PricingResult)
| ShowNothing.

Definition mainView (st : State) : MainView :=
match currentPage st with
| DASHBOARD => ShowDashboard (deals st)
| PRICER => ShowPricerForm
| RESULTS =>
    match currentDeal st, pricingResult st with
    | Some deal, Some result => ShowResults deal result
    | _, _ => ShowNothing
    end
| SETTINGS => ShowNothing
end.

(** Whether an event is a pricing request. *)
Definition isCalculate (ev : Event) : bool :=
match ev with
| Calculate _ => true
| _ => false
end.

(** Every added deal carries the identifier generated from the deals
    below it. *)
Definition numbered (added : list SwapDeal) : Prop :=
forall pre d post,
  added = pre ++ d :: post -> id d = Some (newId (post ++ initialDeals)).

(** What holds of every state [App] can reach. *)
Record invariant (st : State) : Prop := {
  inv_history :
    exists added, deals st = added ++ initialDeals /\ numbered added;
  inv_page : currentPage st <> SETTINGS;
  inv_results :
    currentPage st = RESULTS ->
    exists d r, currentDeal st = Some d /\ pricingResult st = Some r;
  inv_current :
    forall d r, currentDeal st = Some d -> pricingResult st = Some r ->
    hd_error (deals st) = Some d
    /\ principal r = notional (leg2 d)
    /\ spread r = (abs (rate (leg1 d) - rate (leg2 d)) * 100)%float
}.

End App.

Module ResultsPage.

Import Pricer AiService.

Record State : Type := {
  aiAnalysis : string;
  loadingAi : bool;
  showCashflows : bool
}.

Definition initialState : State :=
{| aiAnalysis := EmptyString; loadingAi := false; showCashflows := true |}.

Definition setAiAnalysis (s : string) (st : State) : State :=
{| aiAnalysis := s; loadingAi := loadingAi st;
   showCashflows := showCashflows st |}.

Definition setLoadingAi (b : bool) (st : State) : State :=
{| aiAnalysis := aiAnalysis st; loadingAi := b;
   showCashflows := showCashflows st |}.

Section WithHost.
Variable h : Host.

(** [handleAiAnalyze()], once the awaited promise has settled. *)
Definition handleAiAnalyze (env : Env) (deal : SwapDeal)
  (result : PricingResult) (st : State) : State :=
let st := setLoadingAi true st in
let st :=
  match analyzeSwapDeal h env deal result with
  | Fulfilled analysis => setAiAnalysis analysis st
  | Rejected => setAiAnalysis "Unable to connect to AI service." st
  end in
setLoadingAi false st.

End WithHost.

(** [{!aiAnalysis && <button ...>Run Analysis</button>}] *)
Definition showsRunButton (st : State) : bool :=
negb (truthy (Some (aiAnalysis st))).

(** [{aiAnalysis && <div ...>}] *)
Definition showsAnalysis (st : State) : bool :=
truthy (Some (aiAnalysis st)).

End ResultsPage.

(** ** src/services/aiService.ts: [generatePricingCode] *)

Module PricingCode.

Import Pricer AiService.

Inductive Language : Type := python | cpp.

Definition languageString (language : Language) : string :=
match language with
| python => "python"
| cpp => "cpp"
end.

Definition backtick : ascii := "`".
Definition lineFeed : ascii := ascii_of_nat 10.

Definition fence : string := String backtick (String backtick (String backtick EmptyString)).

(** The rest of [s] after three backticks at its start. *)
Definition fenceTail (s : string) : option string :=
match s with
| String c1 (String c2 (String c3 r)) =>
    if Ascii.eqb c1 backtick && Ascii.eqb c2 backtick && Ascii.eqb c3 backtick
    then Some r else None
| _ => None
end.

(** The character class [[a-z]]. *)
Definition isLower (c : ascii) : bool :=
(97 <=? nat_of_ascii c)%nat && (nat_of_ascii c <=? 122)%nat.

(** Length of the match of [[a-z]*\n] at the start of [s], if there is
    one: lower-case letters up to a line feed. *)
Fixpoint langLength (s : string) : option nat :=
match s with
| EmptyString => None
| String c r =>
    if Ascii.eqb c lineFeed then Some 1%nat
    else if isLower c then option_map S (langLength r)
    else None
end.

(** [s.replace(/```[a-z]*\n/g, '')]: matches are looked for from left to
    right, each search starting where the last match ended.  [skip]
    counts the characters of the current match still to be dropped. *)
Fixpoint replaceFenceOpen (skip : nat) (s : string) : string :=
match s with
| EmptyString => EmptyString
| String c s1 =>
    match skip with
    | S k => replaceFenceOpen k s1
    | O =>
        match fenceTail s with
        | Some r =>
            match langLength r with
            | Some n => replaceFenceOpen (2 + n) s1
            | None => String c (replaceFenceOpen 0 s1)
            end
        | None => String c (replaceFenceOpen 0 s1)
        end
    end
end.

(** [s.replace(/```/g, '')]. *)
Fixpoint replaceFence (s : string) : string :=
match s with
| EmptyString => EmptyString
| String c1 s1 =>
    match s1 with
    | String c2 (String c3 r) =>
        if Ascii.eqb c1 backtick && Ascii.eqb c2 backtick
           && Ascii.eqb c3 backtick
        then replaceFence r
        else String c1 (replaceFence s1)
    | _ => String c1 (replaceFence s1)
    end
end.

(** Whether three backticks in a row occur in [s]. *)
Fixpoint hasFence (s : string) : bool :=
match s with
| EmptyString => false
| String _ r =>
    match fenceTail s with
    | Some _ => true
    | None => hasFence r
    end
end.

Section WithHost.
Variable h : Host.

Definition lib (language : Language) : string :=
match language with
| python => "QuantLib-Python"
| cpp => "QuantLib C++"
end.

Definition legLines (leg : SwapLeg) : list string :=
[ ("    - Currency: " ++ currency leg)%string;
  ("    - Notional: " ++ Number_toString h (notional leg))%string;
  ("    - Rate: " ++ Number_toString h (rate leg) ++ "%")%string;
  ("    - Type: " ++ legTypeString (type leg))%string;
  ("    - Frequency: " ++ frequency leg)%string;
  ("    - Day Count: " ++ convention leg)%string ].

Definition codePrompt (deal : SwapDeal) (language : Language) : string :=
String.concat newline
  ([ ""%string;
     ("    Act as a Quantitative Developer. Write a complete, executable "
        ++ languageString language ++ " script using " ++ lib language
        ++ " to price the following Cross-Currency Swap.")%string;
     ""%string;
     "    **Instrument Details:**"%string;
     ("    - Start Date: " ++ startDate deal)%string;
     ("    - End Date: " ++ endDate deal)%string;
     ("    - Valuation Date: " ++ valueDate deal)%string;
     "    "%string;
     "    **Leg 1 (Payer):**"%string ]
   ++ legLines (leg1 deal)
   ++ [ ""%string;
        "    **Leg 2 (Receiver):**"%string ]
   ++ legLines (leg2 deal)
   ++ [ ""%string;
        "    **Requirements:**"%string;
        "    1. Include necessary imports."%string;
        "    2. Mock/Bootstrap simple flat yield curves for both currencies (assume reasonable rates, e.g., 3% and 1.5%)."%string;
        "    3. Setup the Schedule and VanillaSwap (or CrossCurrencySwap if available in the specific library version, otherwise model as two legs)."%string;
        "    4. Setup a PricingEngine."%string;
        "    5. Print the NPV."%string;
        "    6. Add comments explaining the steps."%string;
        "    7. Do not use markdown formatting (```), just return raw code."%string;
        "  "%string ]).

(** [generatePricingCode(deal, language)]: how the returned promise
    settles.  The [console.error] of the [catch] branch is not
    modelled. *)
Definition generatePricingCode (env : Env) (deal : SwapDeal)
  (language : Language) : Settled string :=
if negb (truthy (API_KEY env)) then
  Fulfilled "// API Key missing. Unable to generate code."%string
else
  let prompt := codePrompt deal language in
  match generateContent env "gemini-2.5-flash" prompt with
  | Fulfilled response =>
      let text := orElse (text response) "// No code generated." in
      let text := replaceFence (replaceFenceOpen 0 text) in
      Fulfilled text
  | Rejected =>
      Fulfilled "// Failed to generate code. Please check your connection."%string
  end.

End WithHost.

End PricingCode.

(** ** Calendar fields of a row date *)

Module UtcDate.

(** Month index ([12 * year + month]) and day of the month of a time
    value read in UTC: the fields of the date [formatDate] prints. *)
Definition utcMonth (t : Z) : Z := fst (JSDate.monthAndDay (JSDate.Day t)).

Definition utcDay (t : Z) : Z := snd (JSDate.monthAndDay (JSDate.Day t)).


End UtcDate.

(** ** Bounds on binary64 values *)

Module Rounding.

(** [m * 2^e <= 2^t], for a mantissa [m] and exponents [e] and [t]. *)
Definition belowPow2 (m e t : Z) : Prop := e <= t /\ m <= 2 ^ (t - e).

(** What remains of [z] after [n] right shifts: the shifted mantissa,
    with no round or sticky bit when the shift loses nothing. *)
Definition shifted (z n : Z) (mrs : shr_record) : Prop :=
shr_m mrs = z / 2 ^ n
/\ (z mod 2 ^ n = 0 -> shr_r mrs = false /\ shr_s mrs = false).

End Rounding.
(** * Facts about the calendar *)

Ltac Zify.zify_post_hook ::= Z.to_euclidean_division_equations.

Section CalendarFacts.
Import JSDate.

Lemma marchYearStart_step y :
  365 <= marchYearStart (y + 1) - marchYearStart y <= 366.
Proof.
  unfold marchYearStart.
  assert (Hr : 0 <= y mod 400 < 400) by (apply Z.mod_pos_bound; lia).
  assert (Hy : y = 400 * (y / 400) + y mod 400) by (apply Z.div_mod; lia).
  set (e := y / 400) in *. set (r := y mod 400) in *. clearbody e r.
  assert (Hcase : (r < 399 /\ (y + 1) / 400 = e /\ (y + 1) mod 400 = r + 1)
               \/ (r = 399 /\ (y + 1) / 400 = e + 1 /\ (y + 1) mod 400 = 0)) by lia.
  destruct Hcase as [(Hlt & -> & ->)|(-> & -> & ->)]; lia.
Qed.

(** A month has 28 to 31 days. *)
Lemma firstOfMonth_step idx :
  28 <= firstOfMonth (idx + 1) - firstOfMonth idx <= 31.
Proof.
  unfold firstOfMonth. cbv zeta.
  replace (idx + 1 - 2) with (idx - 2 + 1) by lia.
  set (k := idx - 2). clearbody k.
  assert (Hm : 0 <= k mod 12 < 12) by (apply Z.mod_pos_bound; lia).
  assert (Hd : k = 12 * (k / 12) + k mod 12) by (apply Z.div_mod; lia).
  set (y := k / 12) in *. set (m := k mod 12) in *. clearbody y m.
  assert (Hcase : (m < 11 /\ (k + 1) / 12 = y /\ (k + 1) mod 12 = m + 1)
               \/ (m = 11 /\ (k + 1) / 12 = y + 1 /\ (k + 1) mod 12 = 0)) by lia.
  pose proof (marchYearStart_step y) as Hstep.
  destruct Hcase as [(Hlt & -> & ->)|(-> & -> & ->)].
  - generalize (marchYearStart y). intros S. clear Hstep. lia.
  - generalize dependent (marchYearStart (y + 1)). generalize (marchYearStart y).
    intros S S' HS. lia.
Qed.

Lemma firstOfMonth_mono a b :
  a <= b -> firstOfMonth a + 28 * (b - a) <= firstOfMonth b.
Proof.
  intros Hab. replace b with (a + Z.of_nat (Z.to_nat (b - a))) by lia.
  generalize (Z.to_nat (b - a)) as n. clear b Hab.
  induction n as [|n IH].
  - replace (a + Z.of_nat 0) with a by lia. lia.
  - pose proof (firstOfMonth_step (a + Z.of_nat n)).
    replace (a + Z.of_nat (S n)) with (a + Z.of_nat n + 1) by lia. lia.
Qed.

(** The month and day computed for a day number are those of the month
    the day lies in. *)
Lemma monthAndDay_spec d :
  firstOfMonth (fst (monthAndDay d)) + snd (monthAndDay d) - 1 = d
  /\ 1 <= snd (monthAndDay d)
  /\ d < firstOfMonth (fst (monthAndDay d) + 1).
Proof.
  unfold monthAndDay. cbv zeta. cbn [fst snd].
  set (z := d + 719468).
  set (era := z / 146097).
  set (doe := z mod 146097).
  assert (Hdoe : 0 <= doe < 146097) by (apply Z.mod_pos_bound; lia).
  assert (Hz : z = 146097 * era + doe) by (apply Z.div_mod; lia).
  set (c := Z.min (doe / 36524) 3).
  set (dc := doe - 36524 * c).
  assert (Hc : 0 <= c <= 3) by (unfold c; lia).
  assert (Hdc : 0 <= dc <= 36524) by (unfold dc, c; lia).
  assert (Hdc' : c < 3 -> dc < 36524) by (unfold dc, c; lia).
  set (q := dc / 1461).
  set (dq := dc mod 1461).
  assert (Hq : 0 <= q <= 24) by (unfold q; lia).
  assert (Hdq : 0 <= dq < 1461 /\ dc = 1461 * q + dq) by (unfold q, dq; lia).
  set (yq := Z.min (dq / 365) 3).
  set (doy := dq - 365 * yq).
  assert (Hyq : 0 <= yq <= 3) by (unfold yq; lia).
  assert (Hdoy : 0 <= doy <= 365) by (unfold doy, yq; lia).
  assert (Hdoy' : yq < 3 -> doy < 365) by (unfold doy, yq; lia).
  set (mp := (5 * doy + 2) / 153).
  assert (Hmp : 0 <= mp <= 11) by (unfold mp; lia).
  assert (Hmp2 : (153 * mp + 2) / 5 <= doy < (153 * (mp + 1) + 2) / 5)
    by (unfold mp; lia).
  assert (Ez : z = d + 719468) by reflexivity.
  assert (Edc : dc = doe - 36524 * c) by reflexivity.
  assert (Edoy : doy = dq - 365 * yq) by reflexivity.
  clearbody mp doy yq dq q dc c doe era z.
  set (y := 400 * era + (100 * c + 4 * q + yq)).
  assert (HS : marchYearStart y
               = 146097 * era + 36524 * c + 1461 * q + 365 * yq).
  { unfold marchYearStart.
    replace (y / 400) with era by (unfold y; lia).
    replace (y mod 400) with (100 * c + 4 * q + yq) by (unfold y; lia).
    lia. }
  assert (HS' : doy < marchYearStart (y + 1) - marchYearStart y).
  { rewrite HS. unfold marchYearStart.
    assert (Hcase : (100 * c + 4 * q + yq < 399 /\ (y + 1) / 400 = era
                      /\ (y + 1) mod 400 = 100 * c + 4 * q + yq + 1)
                 \/ (100 * c + 4 * q + yq = 399 /\ (y + 1) / 400 = era + 1
                      /\ (y + 1) mod 400 = 0)) by (unfold y; lia).
    destruct Hcase as [(Hlt & -> & ->)|(Heq & -> & ->)]; [|lia].
    replace ((100 * c + 4 * q + yq + 1) / 4)
      with (25 * c + q + (yq + 1) / 4) by lia.
    replace ((100 * c + 4 * q + yq + 1) / 100)
      with (c + (4 * q + yq + 1) / 100) by lia.
    destruct (Z.eq_dec yq 3) as [->|Hyq3];
      [destruct (Z.eq_dec q 24) as [->|Hq24]|]; lia. }
  assert (Hk : (12 * y + mp + 2 - 2) / 12 = y
               /\ (12 * y + mp + 2 - 2) mod 12 = mp) by lia.
  assert (Hk' : (mp < 11 /\ (12 * y + mp + 2 + 1 - 2) / 12 = y
                  /\ (12 * y + mp + 2 + 1 - 2) mod 12 = mp + 1)
             \/ (mp = 11 /\ (12 * y + mp + 2 + 1 - 2) / 12 = y + 1
                  /\ (12 * y + mp + 2 + 1 - 2) mod 12 = 0)) by lia.
  unfold firstOfMonth. cbv zeta.
  destruct Hk as [-> ->].
  destruct Hk' as [(Hlt & -> & ->)|(Heq & -> & ->)];
    generalize dependent (marchYearStart (y + 1));
    generalize dependent (marchYearStart y);
    intros S HS S' HS'; lia.
Qed.

Lemma monthAndDay_unique d idx :
  firstOfMonth idx <= d < firstOfMonth (idx + 1) ->
  monthAndDay d = (idx, d - firstOfMonth idx + 1).
Proof.
  intros Hd. pose proof (monthAndDay_spec d) as (H1 & H2 & H3).
  destruct (monthAndDay d) as [i dd]. cbn [fst snd] in *.
  assert (i = idx) as ->.
  { destruct (Z.lt_trichotomy i idx) as [Hlt|[Heq|Hgt]]; [|exact Heq|].
    - pose proof (firstOfMonth_mono (i + 1) idx). lia.
    - pose proof (firstOfMonth_mono (idx + 1) i). lia. }
  f_equal. lia.
Qed.

(** [MakeDay] inverts [civilFromDay]. *)
Lemma MakeDay_civilFromDay d :
  MakeDay (fst (fst (civilFromDay d))) (snd (fst (civilFromDay d)))
          (snd (civilFromDay d)) = d.
Proof.
  unfold civilFromDay, MakeDay.
  pose proof (monthAndDay_spec d) as (H1 & _ & _).
  destruct (monthAndDay d) as [i dd]. cbn [fst snd] in *.
  replace (12 * (i / 12) + i mod 12) with i by lia. exact H1.
Qed.

(** A date that exists is read back unchanged. *)
Lemma civilFromDay_MakeDay y m dd :
  0 <= m <= 11 -> 1 <= dd <= DaysInMonth y m ->
  civilFromDay (MakeDay y m dd) = (y, m, dd).
Proof.
  intros Hm Hdd. unfold DaysInMonth, MakeDay in Hdd.
  unfold civilFromDay, MakeDay.
  replace (12 * y + (m + 1)) with (12 * y + m + 1) in Hdd by lia.
  rewrite (monthAndDay_unique _ (12 * y + m)) by lia.
  f_equal; [f_equal|]; lia.
Qed.

End CalendarFacts.

(** * Hosts on UTC *)

Section UtcFacts.
Import JSDate Pricer Spec UtcDate.

(** On a host whose local time is UTC the local calendar fields are the
    UTC ones. *)
Lemma local_utc h t :
  LocalTZA h = 0 -> localMonth h t = utcMonth t /\ localDay h t = utcDay t.
Proof.
  intros Hz. unfold localMonth, localDay, utcMonth, utcDay, LocalTime.
  rewrite Hz, Z.add_0_r. split; reflexivity.
Qed.


End UtcFacts.

(** * Facts about [addMonths] *)

Section AddMonthsFacts.
Import JSDate Pricer Spec.
Variable h : Host.

(** [addMonths] moves a time value by the distance between the first days
    of the two months. *)
Lemma addMonths_Some t k :
  addMonths h (Some t) k
  = TimeClip (t + (firstOfMonth (localMonth h t + k) - firstOfMonth (localMonth h t))
                  * msPerDay).
Proof.
  unfold addMonths, setMonth, getMonth, option_map. cbv zeta.
  f_equal. unfold localMonth, UTC, MakeDate, MakeDay, YearFromTime,
    MonthFromTime, DateFromTime, civilFromDay, TimeWithinDay.
  set (tl := LocalTime (LocalTZA h) t).
  pose proof (monthAndDay_spec (Day tl)) as (H1 & _ & _).
  destruct (monthAndDay (Day tl)) as [i dd]. cbn [fst snd] in *.
  replace (12 * (i / 12) + (i mod 12 + k)) with (i + k) by lia.
  assert (Htl : tl = Day tl * msPerDay + tl mod msPerDay)
    by (unfold Day, msPerDay; lia).
  unfold LocalTime in *. fold tl. lia.
Qed.

Lemma addMonths_None k : addMonths h None k = None.
Proof. reflexivity. Qed.

(** With a positive step the cursor advances by at least 28 days. *)
Lemma addMonths_advance t k c :
  1 <= k -> addMonths h (Some t) k = Some c -> t + 28 * msPerDay <= c.
Proof.
  intros Hk. rewrite addMonths_Some. unfold TimeClip.
  destruct (Z.abs _ <=? _); [|discriminate]. intros [= <-].
  pose proof (firstOfMonth_mono (localMonth h t) (localMonth h t + k)).
  unfold msPerDay. nia.
Qed.

(** When the day of the month exists in the target month, the local date
    moves by exactly [k] months and keeps its day. *)
Lemma addMonths_exact t k c :
  addMonths h (Some t) k = Some c ->
  localDay h t <= firstOfMonth (localMonth h t + k + 1) - firstOfMonth (localMonth h t + k) ->
  localMonth h c = localMonth h t + k /\ localDay h c = localDay h t.
Proof.
  rewrite addMonths_Some. unfold TimeClip.
  destruct (Z.abs _ <=? _); [|discriminate]. intros [= <-].
  unfold localMonth, localDay, LocalTime.
  set (tl := t + LocalTZA h).
  pose proof (monthAndDay_spec (Day tl)) as (H1 & H2 & _).
  set (i := fst (monthAndDay (Day tl))) in *.
  set (dd := snd (monthAndDay (Day tl))) in *.
  intros Hdd.
  replace (t + (firstOfMonth (i + k) - firstOfMonth i) * msPerDay + LocalTZA h)
    with (tl + (firstOfMonth (i + k) - firstOfMonth i) * msPerDay)
    by (unfold tl; lia).
  assert (HD : Day (tl + (firstOfMonth (i + k) - firstOfMonth i) * msPerDay)
               = firstOfMonth (i + k) + dd - 1).
  { unfold Day in *. rewrite Z.div_add by (unfold msPerDay; lia). lia. }
  rewrite HD, (monthAndDay_unique _ (i + k)) by lia.
  cbn [fst snd]. lia.
Qed.

End AddMonthsFacts.

(** * Facts about date strings *)

Section DateStringFacts.
Import JSDate Spec.
Local Open Scope string_scope.

Lemma digitVal_digitChar v : 0 <= v <= 9 -> digitVal (digitChar v) = Some v.
Proof.
  intros Hv.
  assert (Hcases : v = 0 \/ v = 1 \/ v = 2 \/ v = 3 \/ v = 4 \/ v = 5
                   \/ v = 6 \/ v = 7 \/ v = 8 \/ v = 9) by lia.
  repeat (destruct Hcases as [->|Hcases]; [reflexivity|]). subst v. reflexivity.
Qed.


Lemma readDigits_snoc w : forall acc s,
  readDigits (S w) acc s
  = match readDigits w acc s with
    | Some (a, String c r) =>
        match digitVal c with Some v => Some (10 * a + v, r) | None => None end
    | _ => None
    end.
Proof.
  induction w as [|w IH]; intros acc s.
  - cbn. destruct s as [|c r]; [reflexivity|]. destruct (digitVal c); reflexivity.
  - cbn [readDigits]. destruct s as [|c r]; [reflexivity|].
    destruct (digitVal c) as [v|]; [|reflexivity].
    rewrite <- IH. reflexivity.
Qed.

Lemma append_assoc (a b c : string) : (a ++ b) ++ c = a ++ (b ++ c).
Proof. induction a as [|x a IH]; cbn; [reflexivity|now rewrite IH]. Qed.

Lemma append_nil (a : string) : a ++ "" = a.
Proof. induction a as [|x a IH]; cbn; [reflexivity|now rewrite IH]. Qed.

(** A field written with [w] digits is read back. *)
Lemma readDigits_digitsOf w : forall z acc rest,
  0 <= z < 10 ^ Z.of_nat w ->
  readDigits w acc (digitsOf w z ++ rest) = Some (acc * 10 ^ Z.of_nat w + z, rest).
Proof.
  induction w as [|w IH]; intros z acc rest Hz.
  - cbn in *. f_equal. f_equal. lia.
  - rewrite readDigits_snoc. cbn [digitsOf]. rewrite append_assoc. cbn [append].
    assert (Hpow : 10 ^ Z.of_nat (S w) = 10 * 10 ^ Z.of_nat w).
    { rewrite Nat2Z.inj_succ, Z.pow_succ_r by lia. reflexivity. }
    rewrite IH by lia.
    rewrite digitVal_digitChar by lia.
    f_equal. f_equal. lia.
Qed.


Lemma noT_app a b : noT a -> noT b -> noT (a ++ b).
Proof.
  unfold noT. induction a as [|x a IH]; cbn; [tauto|].
  destruct (Ascii.eqb x "T"); [discriminate|].
  intros [= Ha] Hb. now rewrite IH.
Qed.

Lemma noT_cons c s : Ascii.eqb c "T" = false -> noT s -> noT (String c s).
Proof. unfold noT. cbn. intros -> ->. reflexivity. Qed.

Lemma noT_digitsOf w : forall z, noT (digitsOf w z).
Proof.
  induction w as [|w IH]; intros z; [reflexivity|].
  cbn [digitsOf]. apply noT_app; [apply IH|].
  assert (Hz : 0 <= z mod 10 < 10) by (apply Z.mod_pos_bound; lia).
  assert (Hcases : z mod 10 = 0 \/ z mod 10 = 1 \/ z mod 10 = 2 \/ z mod 10 = 3
                   \/ z mod 10 = 4 \/ z mod 10 = 5 \/ z mod 10 = 6
                   \/ z mod 10 = 7 \/ z mod 10 = 8 \/ z mod 10 = 9) by lia.
  repeat (destruct Hcases as [->|Hcases]; [reflexivity|]).
  rewrite Hcases. reflexivity.
Qed.

Lemma beforeT_app a r : noT a -> beforeT (a ++ String "T" r) = a.
Proof.
  unfold noT. induction a as [|x a IH]; cbn; [reflexivity|].
  destruct (Ascii.eqb x "T"); [discriminate|].
  intros [= Ha]. now rewrite IH.
Qed.

Lemma noT_dateString t : noT (dateString t).
Proof.
  unfold dateString. apply noT_app.
  - unfold yearString. destruct (andb _ _); [apply noT_digitsOf|].
    destruct (_ <=? _)%Z; (apply noT_cons; [reflexivity|apply noT_digitsOf]).
  - cbn [append]. apply noT_cons; [reflexivity|].
    apply noT_app; [apply noT_digitsOf|].
    apply noT_cons; [reflexivity|apply noT_digitsOf].
Qed.

(** [formatDate] yields the date part of the ISO string. *)
Lemma formatDate_Some t : Pricer.formatDate (Some t) = JS.Normal (dateString t).
Proof.
  unfold Pricer.formatDate, toISOString.
  rewrite beforeT_app by apply noT_dateString. reflexivity.
Qed.

Lemma firstOfMonth_0 : firstOfMonth 0 = -719528.
Proof. vm_compute. reflexivity. Qed.

Lemma firstOfMonth_120000 : firstOfMonth 120000 = 2932897.
Proof. vm_compute. reflexivity. Qed.

Lemma year_in_range t :
  minTime <= t <= maxTime -> 0 <= YearFromTime t <= 9999.
Proof.
  unfold minTime, maxTime, YearFromTime, civilFromDay. intros Ht.
  pose proof (monthAndDay_spec (Day t)) as (H1 & H2 & H3).
  destruct (monthAndDay (Day t)) as [i dd]. cbn [fst snd] in *.
  assert (HD : -719528 <= Day t < 2932897)
    by (unfold Day, msPerDay in *; lia).
  assert (0 <= i < 120000).
  { split.
    - destruct (Z_lt_le_dec i 0) as [Hneg|]; [|assumption].
      pose proof (firstOfMonth_mono (i + 1) 0) as Hm.
      rewrite firstOfMonth_0 in Hm. lia.
    - destruct (Z_lt_le_dec i 120000) as [|Hbig]; [assumption|].
      pose proof (firstOfMonth_mono 120000 i) as Hm.
      rewrite firstOfMonth_120000 in Hm. lia. }
  lia.
Qed.


(** The date part of the ISO string reads back as midnight of that day. *)
Lemma parse_dateString t :
  minTime <= t <= maxTime -> parse (dateString t) = Some (Day t * msPerDay).
Proof.
  intros Ht. pose proof (year_in_range t Ht) as Hy.
  unfold dateString, yearString.
  replace ((0 <=? YearFromTime t)%Z && (YearFromTime t <=? 9999)%Z) with true
    by (symmetry; apply andb_true_intro; split; lia).
  unfold parse, YearFromTime, MonthFromTime, DateFromTime, civilFromDay in *.
  pose proof (monthAndDay_spec (Day t)) as (H1 & H2 & H3).
  pose proof (firstOfMonth_step (fst (monthAndDay (Day t)))) as Hlen.
  destruct (monthAndDay (Day t)) as [i dd]. cbn [fst snd] in *.
  rewrite readDigits_digitsOf
    by (change (10 ^ Z.of_nat 4) with 10000; change (10 ^ Z.of_nat 2) with 100; lia).
  cbn [append readChar]. rewrite Ascii.eqb_refl.
  rewrite readDigits_digitsOf
    by (change (10 ^ Z.of_nat 4) with 10000; change (10 ^ Z.of_nat 2) with 100; lia).
  cbn [readChar]. rewrite Ascii.eqb_refl.
  rewrite <- (append_nil (digitsOf 2 dd)), readDigits_digitsOf
    by (change (10 ^ Z.of_nat 2) with 100; lia).
  replace (0 * 10 ^ Z.of_nat 4 + i / 12) with (i / 12) by lia.
  replace (0 * 10 ^ Z.of_nat 2 + (i mod 12 + 1)) with (i mod 12 + 1) by lia.
  replace (0 * 10 ^ Z.of_nat 2 + dd) with dd by lia.
  unfold DaysInMonth, MakeDay.
  replace (12 * (i / 12) + (i mod 12 + 1 - 1 + 1)) with (i + 1) by lia.
  replace (12 * (i / 12) + (i mod 12 + 1 - 1)) with i by lia.
  replace ((1 <=? i mod 12 + 1)%Z && (i mod 12 + 1 <=? 12)%Z && (1 <=? dd)%Z
           && (dd <=? firstOfMonth (i + 1) + 1 - 1 - (firstOfMonth i + 1 - 1))%Z)
    with true
    by (symmetry; repeat (apply andb_true_intro; split); lia).
  unfold MakeDate, TimeClip. rewrite H1, Z.add_0_r.
  replace (Z.abs (Day t * msPerDay) <=? 8640000000000000)%Z with true; [reflexivity|].
  symmetry. apply Z.leb_le. clear - Ht.
  unfold minTime, maxTime in Ht. unfold Day, msPerDay. lia.
Qed.

End DateStringFacts.

(** * The loop of [generateSmartCashflows] *)

Section LoopFacts.
Import JSDate Pricer Spec.
Variable h : Host.

Lemma getFrequencyMonths_cases f :
  getFrequencyMonths f = 1 \/ getFrequencyMonths f = 3
  \/ getFrequencyMonths f = 6 \/ getFrequencyMonths f = 12.
Proof.
  unfold getFrequencyMonths.
  repeat (destruct (String.eqb f _); [tauto|]). tauto.
Qed.

Lemma stepMonths_pos deal : 1 <= stepMonths deal <= 12.
Proof.
  unfold stepMonths.
  destruct (getFrequencyMonths_cases (frequency (leg1 deal)))
    as [-> | [-> | [-> | ->]]]; lia.
Qed.

(** One iteration: the row it pushes and the draws it makes. *)
Lemma cashflowRow_run deal t period st :
  cashflowRow h (stepMonths deal) (Some t) period (world deal st)
  = JS.Normal (rowAt h deal (Some t) period st,
               world deal (st + drawsPerRow deal)).
Proof.
  unfold cashflowRow, JS.bind, JS.lift, deref, world. cbn [dealObject randomCalls].
  rewrite formatDate_Some.
  unfold rowAt, drawsPerRow, draws, effectiveRate, effectiveRateAt, interest,
    discount, timeFraction, perturbation, random, JS.bind, JS.ret.
  cbn [dealObject randomCalls].
  destruct (type (leg1 deal)), (type (leg2 deal)); cbn [dealObject randomCalls];
    rewrite ?Nat.add_0_r, ?Nat.add_1_r;
    try replace (st + 2)%nat with (S (S st)) by lia;
    reflexivity.
Qed.

Lemma cursorFrom_succ k i : forall c,
  cursorFrom h k c (S i) = addMonths h (cursorFrom h k c i) k.
Proof.
  induction i as [|i IH]; intros c; [reflexivity|].
  change (cursorFrom h k c (S (S i))) with (cursorFrom h k (addMonths h c k) (S i)).
  rewrite IH. reflexivity.
Qed.

Lemma paymentDate_cursorFrom deal i :
  paymentDate h deal i
  = cursorFrom h (stepMonths deal)
      (addMonths h (parse (startDate deal)) (stepMonths deal)) i.
Proof.
  induction i as [|i IH]; [reflexivity|].
  rewrite cursorFrom_succ, <- IH. reflexivity.
Qed.

Lemma loopBound_step k t e :
  1 <= k -> leb (Some t) e = true ->
  (S (loopBound (addMonths h (Some t) k) e) <= loopBound (Some t) e)%nat.
Proof.
  intros Hk Hle. destruct e as [te|]; [|discriminate].
  cbn in Hle. apply Z.leb_le in Hle.
  destruct (addMonths h (Some t) k) as [c'|] eqn:Ec.
  - apply addMonths_advance in Ec; [|assumption].
    unfold loopBound, msPerDay in *. lia.
  - unfold loopBound, msPerDay. lia.
Qed.

(** The loop with enough fuel: it pushes one row per cursor up to the
    first cursor that is not on or before the end date. *)
Lemma cashflowLoop_run deal e : forall fuel c period rows st,
  (loopBound c e <= fuel)%nat ->
  exists n,
    cashflowLoop h fuel (stepMonths deal) e c period rows (world deal st)
    = JS.Normal
        (rows ++ map (fun i => rowAt h deal (cursorFrom h (stepMonths deal) c i)
                                  (period + Z.of_nat i)
                                  (st + i * drawsPerRow deal))
                     (seq 0 n),
         world deal (st + n * drawsPerRow deal))
    /\ (forall i, (i < n)%nat ->
          leb (cursorFrom h (stepMonths deal) c i) e = true)
    /\ leb (cursorFrom h (stepMonths deal) c n) e = false.
Proof.
  induction fuel as [|fuel IH]; intros c period rows st Hfuel.
  - exists 0%nat. cbn [cashflowLoop].
    destruct (leb c e) eqn:Hle.
    + destruct c as [t|]; [|discriminate].
      destruct e as [te|]; [|discriminate].
      cbn in Hle. apply Z.leb_le in Hle.
      unfold loopBound, msPerDay in Hfuel. lia.
    + cbn [seq map JS.ret]. rewrite app_nil_r, Nat.mul_0_l, Nat.add_0_r.
      split; [reflexivity|]. split; [|exact Hle]. intros i Hi. lia.
  - cbn [cashflowLoop]. destruct (leb c e) eqn:Hle.
    + destruct c as [t|]; [|discriminate].
      pose proof (loopBound_step (stepMonths deal) t e
                    (proj1 (stepMonths_pos deal)) Hle) as Hs.
      unfold JS.bind at 1. rewrite cashflowRow_run.
      destruct (IH (addMonths h (Some t) (stepMonths deal)) (period + 1)
                  (rows ++ [rowAt h deal (Some t) period st])
                  (st + drawsPerRow deal)%nat) as (n & Hrun & Hin & Hout);
        [lia|].
      exists (S n). rewrite Hrun. split; [|split].
      * apply (f_equal (@JS.Normal _)). apply f_equal2.
        -- rewrite <- app_assoc. apply (f_equal (app rows)).
           cbn [seq map app cursorFrom].
           rewrite Z.add_0_r, Nat.mul_0_l, Nat.add_0_r.
           apply (f_equal (cons _)).
           rewrite <- seq_shift, map_map. apply map_ext. intros i.
           cbn [cursorFrom].
           replace (period + 1 + Z.of_nat i) with (period + Z.of_nat (S i)) by lia.
           replace (st + drawsPerRow deal + i * drawsPerRow deal)%nat
             with (st + S i * drawsPerRow deal)%nat by lia.
           reflexivity.
        -- apply (f_equal (world deal)). lia.
      * intros [|i] Hi; [exact Hle|]. cbn [cursorFrom]. apply Hin. lia.
      * exact Hout.
    + exists 0%nat. cbn [seq map JS.ret]. rewrite app_nil_r, Nat.mul_0_l, Nat.add_0_r.
      split; [reflexivity|]. split; [|exact Hle]. intros i Hi. lia.
Qed.

(** The generator returns; the number of rows is the number of payment
    dates on or before the end date. *)
Lemma generateSmartCashflows_run deal st :
  exists n,
    generateSmartCashflows h (world deal st)
    = JS.Normal (rowsOf h deal st n, world deal (st + n * drawsPerRow deal))
    /\ (forall i, (i < n)%nat ->
          leb (paymentDate h deal i) (parse (endDate deal)) = true)
    /\ leb (paymentDate h deal n) (parse (endDate deal)) = false.
Proof.
  unfold generateSmartCashflows, deref. unfold JS.bind at 1. cbv zeta.
  cbn [world dealObject].
  fold (stepMonths deal). fold (world deal st).
  destruct (cashflowLoop_run deal (parse (endDate deal))
              (loopBound (addMonths h (parse (startDate deal)) (stepMonths deal))
                         (parse (endDate deal)))
              (addMonths h (parse (startDate deal)) (stepMonths deal))
              1 [] st (Nat.le_refl _)) as (n & Hrun & Hin & Hout).
  exists n. rewrite Hrun. split; [|split].
  - cbn [app]. unfold rowsOf. apply (f_equal (@JS.Normal _)).
    apply (f_equal (fun l => (l, _))). apply map_ext. intros i.
    rewrite paymentDate_cursorFrom.
    replace (1 + Z.of_nat i) with (Z.of_nat i + 1) by lia. reflexivity.
  - intros i Hi. rewrite paymentDate_cursorFrom. apply Hin, Hi.
  - rewrite paymentDate_cursorFrom. exact Hout.
Qed.

End LoopFacts.

(** * Rows of a run *)

Section RowFacts.
Import JSDate Pricer Spec.

Lemma rowsOf_length h deal st n : List.length (rowsOf h deal st n) = n.
Proof. unfold rowsOf. rewrite length_map, length_seq. reflexivity. Qed.

Lemma nth_error_rowsOf h deal st n i row :
  nth_error (rowsOf h deal st n) i = Some row ->
  (i < n)%nat
  /\ row = rowAt h deal (paymentDate h deal i) (Z.of_nat i + 1)
                 (st + i * drawsPerRow deal).
Proof.
  intros Hnth.
  assert (Hi : (i < n)%nat).
  { rewrite <- (rowsOf_length h deal st n). apply nth_error_Some. congruence. }
  split; [exact Hi|]. unfold rowsOf in Hnth.
  rewrite nth_error_map, nth_error_seq in Hnth.
  destruct (Nat.ltb_spec i n); [|lia]. cbn in Hnth. congruence.
Qed.

(** The number of rows is determined by the payment dates. *)
Lemma row_count_unique (P : nat -> bool) n m :
  (forall i, (i < n)%nat -> P i = true) -> P n = false ->
  (forall i, (i < m)%nat -> P i = true) -> P m = false ->
  n = m.
Proof.
  intros Hn Hn' Hm Hm'.
  destruct (Nat.lt_trichotomy n m) as [Hlt|[Heq|Hgt]]; [|exact Heq|].
  - rewrite (Hm n Hlt) in Hn'. discriminate.
  - rewrite (Hn m Hgt) in Hm'. discriminate.
Qed.

(** A run whose payment dates are known up to the first one after the
    end date. *)
Lemma generateSmartCashflows_count h deal st m :
  (forall i, (i < m)%nat ->
     leb (paymentDate h deal i) (parse (endDate deal)) = true) ->
  leb (paymentDate h deal m) (parse (endDate deal)) = false ->
  generateSmartCashflows h (world deal st)
  = JS.Normal (rowsOf h deal st m, world deal (st + m * drawsPerRow deal)).
Proof.
  intros Hin Hout.
  destruct (generateSmartCashflows_run h deal st) as (n & Hrun & Hn & Hn').
  rewrite (row_count_unique
             (fun i => leb (paymentDate h deal i) (parse (endDate deal)))
             m n Hin Hout Hn Hn').
  exact Hrun.
Qed.

(** Hosts that agree on the time zone produce the same payment dates. *)
Lemma paymentDate_ext h h' deal i :
  LocalTZA h = LocalTZA h' -> paymentDate h deal i = paymentDate h' deal i.
Proof.
  intros Htz. induction i as [|i IH]; cbn [paymentDate]; unfold addMonths;
    rewrite Htz; [reflexivity|rewrite IH; reflexivity].
Qed.

(** A row depends on the host through [Math.pow] and the draws the row
    makes. *)
Lemma rowAt_ext h h' deal cur period n n' :
  (forall b e, Math_pow h b e = Math_pow h' b e) ->
  effectiveRateAt h (leg1 deal) n = effectiveRateAt h' (leg1 deal) n' ->
  effectiveRateAt h (leg2 deal) (n + draws (leg1 deal))
  = effectiveRateAt h' (leg2 deal) (n' + draws (leg1 deal)) ->
  rowAt h deal cur period n = rowAt h' deal cur period n'.
Proof.
  intros Hpow H1 H2. unfold rowAt, discount. cbv zeta.
  rewrite H1, H2, Hpow. reflexivity.
Qed.

Lemma effectiveRateAt_Fixed h h' leg n n' :
  type leg = Fixed -> effectiveRateAt h leg n = effectiveRateAt h' leg n'.
Proof. intros Ht. unfold effectiveRateAt. rewrite Ht. reflexivity. Qed.

Lemma effectiveRateAt_ext h h' leg n :
  Math_random h n = Math_random h' n ->
  effectiveRateAt h leg n = effectiveRateAt h' leg n.
Proof. intros Hr. unfold effectiveRateAt. rewrite Hr. reflexivity. Qed.

End RowFacts.

(** * The claims *)

Section Claims.
Import JSDate Pricer Spec Examples.

(** C1 (as amended).  Every run returns, and the row with index [i]
    (period [i + 1]) holds: each leg's interest
    [notional * (effectiveRate / 100) * timeFraction] rounded to 2
    decimals, negated for leg 2; the discount factor
    [1 / 1.04 ^ (period * timeFraction)] rounded to 4 decimals; and
    [|interest1| - |interest2| * discountFactor], with the unrounded
    discount factor, rounded to 2 decimals.  The effective rate is the
    stated rate of a Fixed leg and the perturbed rate of a Floating leg. *)
Theorem C1_row_fields h deal st :
  exists rows w',
    generateSmartCashflows h (world deal st) = JS.Normal (rows, w')
    /\ forall i row, nth_error rows i = Some row ->
       let period := Z.of_nat i + 1 in
       let n := (st + i * drawsPerRow deal)%nat in
       let i1 :=
         interest (leg1 deal) (effectiveRateAt h (leg1 deal) n)
                  (timeFraction deal) in
       let i2 :=
         interest (leg2 deal)
                  (effectiveRateAt h (leg2 deal) (n + draws (leg1 deal)))
                  (timeFraction deal) in
       leg1Flow row = Num.toFixedNumber 2 i1
       /\ leg2Flow row = Num.toFixedNumber 2 (- i2)%float
       /\ discountFactor row = Num.toFixedNumber 4 (discount h deal period)
       /\ presentValue row
          = Num.toFixedNumber 2
              (abs i1 - abs i2 * discount h deal period)%float.
Proof.
  destruct (generateSmartCashflows_run h deal st) as (n & Hrun & _ & _).
  eexists _, _. split; [exact Hrun|].
  intros i row Hnth. apply nth_error_rowsOf in Hnth as [_ ->].
  cbv zeta. unfold rowAt. cbn [leg1Flow leg2Flow discountFactor presentValue].
  repeat split.
Qed.

(** C1, as stated, fails: the flows are the interest values rounded to 2
    decimals, not the raw values.  On a UTC host, [smallDeal] has one row
    whose leg-1 flow is 0.83 while the interest is 0.8333333333333333. *)
Lemma C1_flows_are_rounded :
  exists row,
    (forall pow rnd st,
       generateSmartCashflows (utcHost pow rnd) (world smallDeal st)
       = JS.Normal ([row pow], world smallDeal st))
    /\ (forall pow, leg1Flow (row pow) = 0.83%float)
    /\ interest (leg1 smallDeal) (rate (leg1 smallDeal)) (timeFraction smallDeal)
       = 0.8333333333333333%float
    /\ (forall pow,
          PrimFloat.eqb (leg1Flow (row pow))
            (interest (leg1 smallDeal) (rate (leg1 smallDeal))
                      (timeFraction smallDeal)) = false).
Proof.
  exists (fun pow =>
            rowAt (utcHost pow (fun _ => 0%float)) smallDeal
                  (Some 1738368000000) 1 0).
  split; [|split; [|split]].
  - intros pow rnd st.
    rewrite (generateSmartCashflows_count _ _ _ 1).
    + rewrite Nat.mul_0_r, Nat.add_0_r. reflexivity.
    + intros [|i] Hi; [|lia]. vm_compute. reflexivity.
    + vm_compute. reflexivity.
  - intros pow. vm_compute. reflexivity.
  - vm_compute. reflexivity.
  - intros pow. vm_compute. reflexivity.
Qed.


(** C5.  With both legs Fixed the rows do not depend on the random
    source: two calls on the same deal, on hosts that differ at most in
    the values [Math.random] returns and after any numbers of earlier
    draws, return the same rows and draw nothing. *)
Theorem C5_fixed_deterministic h h' deal st st' :
  type (leg1 deal) = Fixed -> type (leg2 deal) = Fixed ->
  LocalTZA h = LocalTZA h' ->
  (forall b e, Math_pow h b e = Math_pow h' b e) ->
  exists rows,
    generateSmartCashflows h (world deal st) = JS.Normal (rows, world deal st)
    /\ generateSmartCashflows h' (world deal st')
       = JS.Normal (rows, world deal st').
Proof.
  intros H1 H2 Htz Hpow.
  destruct (generateSmartCashflows_run h deal st) as (n & Hrun & Hin & Hout).
  assert (Hdr : drawsPerRow deal = 0%nat)
    by (unfold drawsPerRow, draws; rewrite H1, H2; reflexivity).
  exists (rowsOf h deal st n). split.
  - rewrite Hrun, Hdr, Nat.mul_0_r, Nat.add_0_r. reflexivity.
  - rewrite (generateSmartCashflows_count h' deal st' n).
    + rewrite Hdr, Nat.mul_0_r, Nat.add_0_r.
      apply (f_equal (fun l => JS.Normal (l, world deal st'))).
      unfold rowsOf. apply map_ext. intros i.
      rewrite (paymentDate_ext h h' deal i Htz). symmetry.
      apply rowAt_ext; [exact Hpow| |];
        apply effectiveRateAt_Fixed; assumption.
    + intros i Hi. rewrite <- (paymentDate_ext h h' deal i Htz). auto.
    + rewrite <- (paymentDate_ext h h' deal n Htz). exact Hout.
Qed.

Lemma C5_fixed_deterministic_witness :
  exists rows,
    generateSmartCashflows (utcHost seriesPow cyclicRandom) (world scenarioDeal 0)
    = JS.Normal (rows, world scenarioDeal 0)
    /\ generateSmartCashflows (utcHost seriesPow (fun _ => 0.5%float))
         (world scenarioDeal 7)
       = JS.Normal (rows, world scenarioDeal 7).
Proof.
  apply (C5_fixed_deterministic
           (utcHost seriesPow cyclicRandom)
           (utcHost seriesPow (fun _ => 0.5%float)) scenarioDeal 0 7);
    reflexivity.
Defined.

(** C6.  The summary [handleCalculate] computes from the rows of the
    generator: [npvTotal] is the sum of the rows' present values,
    [leg1Npv] and [leg2Npv] are the sums of the rows' leg-1 and leg-2
    flows, [spread] is the absolute difference of the two stated rates
    times 100, and [principal] is leg 2's notional. *)
Theorem C6_summary h deal st :
  exists rows w' result,
    generateSmartCashflows h (world deal st) = JS.Normal (rows, w')
    /\ handleCalculate h (world deal st) = JS.Normal (result, w')
    /\ cashflows result = rows
    /\ npvTotal result = sumOf presentValue rows
    /\ leg1Npv result = sumOf leg1Flow rows
    /\ leg2Npv result = sumOf leg2Flow rows
    /\ spread result
       = (abs (rate (leg1 deal) - rate (leg2 deal)) * 100)%float
    /\ principal result = notional (leg2 deal).
Proof.
  destruct (generateSmartCashflows_run h deal st) as (n & Hrun & _).
  eexists _, _, _. split; [exact Hrun|].
  unfold handleCalculate. unfold JS.bind at 1. rewrite Hrun.
  unfold JS.bind, deref, JS.ret, world. cbn [dealObject].
  split; [reflexivity|]. cbn [cashflows npvTotal leg1Npv leg2Npv spread principal].
  repeat split.
Qed.

(** C9 (as amended).  A call leaves the deal object as it was; the only
    state it changes is the count of draws, which grows by the draws of
    the rows it returns.  Its result depends on the deal, the values
    drawn during the call, and the host: its time zone and its
    [Math.pow].  A host that agrees on these returns the same rows. *)
Theorem C9_frame h deal st :
  exists rows w',
    generateSmartCashflows h (world deal st) = JS.Normal (rows, w')
    /\ dealObject w' = deal
    /\ randomCalls w' = (st + List.length rows * drawsPerRow deal)%nat
    /\ forall h',
         LocalTZA h' = LocalTZA h ->
         (forall b e, Math_pow h' b e = Math_pow h b e) ->
         (forall k, (st <= k < randomCalls w')%nat ->
            Math_random h' k = Math_random h k) ->
         generateSmartCashflows h' (world deal st) = JS.Normal (rows, w').
Proof.
  destruct (generateSmartCashflows_run h deal st) as (n & Hrun & Hin & Hout).
  eexists _, _. split; [exact Hrun|].
  cbn [world dealObject randomCalls]. rewrite rowsOf_length.
  split; [reflexivity|]. split; [reflexivity|].
  intros h' Htz Hpow Hrnd.
  rewrite (generateSmartCashflows_count h' deal st n).
  - apply (f_equal (fun l => JS.Normal (l, world deal _))).
    unfold rowsOf. apply map_ext_in. intros i Hi. apply in_seq in Hi.
    rewrite (paymentDate_ext h' h deal i Htz).
    assert (Hi' : (i * drawsPerRow deal + drawsPerRow deal
                   <= n * drawsPerRow deal)%nat) by nia.
    apply rowAt_ext; [exact Hpow| |].
    + unfold effectiveRateAt. destruct (type (leg1 deal)) eqn:Ht; [reflexivity|].
      rewrite Hrnd; [reflexivity|].
      unfold drawsPerRow, draws in *. rewrite Ht in *. lia.
    + unfold effectiveRateAt. destruct (type (leg2 deal)) eqn:Ht; [reflexivity|].
      rewrite Hrnd; [reflexivity|].
      unfold drawsPerRow, draws in *. rewrite Ht in *.
      destruct (type (leg1 deal)); lia.
  - intros i Hi. rewrite (paymentDate_ext h' h deal i Htz). auto.
  - rewrite (paymentDate_ext h' h deal n Htz). exact Hout.
Qed.

(** C9, as stated, fails: the rows do not depend on the explicit inputs
    and the values drawn alone.  The scenario deal has both legs fixed,
    so nothing is drawn; with the same [Math.pow], a host on UTC dates
    its two rows 2025-01-01 and 2025-04-01, and a host three hours
    behind UTC dates them 2024-12-31 and 2025-03-31. *)
Lemma C9_time_zone_changes_rows :
  exists rows rows',
    (forall pow rnd st,
       generateSmartCashflows (utcHost pow rnd) (world scenarioDeal st)
       = JS.Normal (rows pow, world scenarioDeal st))
    /\ (forall pow rnd st,
          generateSmartCashflows (westHost pow rnd) (world scenarioDeal st)
          = JS.Normal (rows' pow, world scenarioDeal st))
    /\ (forall pow,
          map date (rows pow) = ["2025-01-01"%string; "2025-04-01"%string])
    /\ (forall pow,
          map date (rows' pow) = ["2024-12-31"%string; "2025-03-31"%string])
    /\ (forall pow, rows pow <> rows' pow).
Proof.
  exists (fun pow => rowsOf (utcHost pow (fun _ => 0%float)) scenarioDeal 0 2),
         (fun pow => rowsOf (westHost pow (fun _ => 0%float)) scenarioDeal 0 2).
  assert (Hutc : forall pow,
            map date (rowsOf (utcHost pow (fun _ => 0%float)) scenarioDeal 0 2)
            = ["2025-01-01"%string; "2025-04-01"%string])
    by (intros pow; vm_compute; reflexivity).
  assert (Hwest : forall pow,
            map date (rowsOf (westHost pow (fun _ => 0%float)) scenarioDeal 0 2)
            = ["2024-12-31"%string; "2025-03-31"%string])
    by (intros pow; vm_compute; reflexivity).
  split; [|split; [|split; [exact Hutc|split; [exact Hwest|]]]].
  - intros pow rnd st. rewrite (generateSmartCashflows_count _ _ _ 2).
    + change (drawsPerRow scenarioDeal) with 0%nat.
      rewrite !Nat.mul_0_r, !Nat.add_0_r. reflexivity.
    + intros [|[|i]] Hi; [| |lia]; vm_compute; reflexivity.
    + vm_compute. reflexivity.
  - intros pow rnd st. rewrite (generateSmartCashflows_count _ _ _ 2).
    + change (drawsPerRow scenarioDeal) with 0%nat.
      rewrite !Nat.mul_0_r, !Nat.add_0_r. reflexivity.
    + intros [|[|i]] Hi; [| |lia]; vm_compute; reflexivity.
    + vm_compute. reflexivity.
  - intros pow Heq. apply (f_equal (map date)) in Heq.
    rewrite Hutc, Hwest in Heq. discriminate Heq.
Qed.

End Claims.

Section AnalysisClaims.
Import Pricer AiService.
Local Open Scope string_scope.

Lemma orElse_cases s fallback :
  (forall t, s = Some t -> t <> "" -> orElse s fallback = t)
  /\ (s = Some "" -> orElse s fallback = fallback)
  /\ (s = None -> orElse s fallback = fallback).
Proof.
  split; [|split].
  - intros t -> Hne. destruct t; [contradiction|reflexivity].
  - intros ->. reflexivity.
  - intros ->. reflexivity.
Qed.

(** C10.  [analyzeSwapDeal] never rejects; the promise it returns is
    fulfilled with a string: the "API Key missing" message when no API
    key is configured; otherwise the text of the model's response, or
    "No analysis generated." when that text is undefined or empty; and
    the failure message when the remote call rejects. *)
Theorem C10_analyze_never_rejects h env deal result :
  exists s,
    analyzeSwapDeal h env deal result = Fulfilled s
    /\ (truthy (API_KEY env) = false ->
        s = "API Key missing. Unable to perform AI analysis.")
    /\ (truthy (API_KEY env) = true ->
        (forall response t,
           generateContent env "gemini-2.5-flash" (analysisPrompt h deal result)
           = Fulfilled response ->
           text response = Some t -> t <> "" -> s = t)
        /\ (forall response,
              generateContent env "gemini-2.5-flash" (analysisPrompt h deal result)
              = Fulfilled response ->
              text response = Some "" \/ text response = None ->
              s = "No analysis generated.")
        /\ (generateContent env "gemini-2.5-flash" (analysisPrompt h deal result)
            = Rejected ->
            s = "Failed to generate analysis. Please check your connection or API limits.")).
Proof.
  unfold analyzeSwapDeal. destruct (truthy (API_KEY env)) eqn:Hkey; cbn [negb].
  - destruct (generateContent env _ _) as [response|] eqn:Hcall.
    + eexists. split; [reflexivity|]. split; [discriminate|]. intros _.
      pose proof (orElse_cases (text response) "No analysis generated.")
        as (Hsome & Hempty & Hnone).
      split; [|split].
      * intros r t [= <-] Ht Hne. exact (Hsome t Ht Hne).
      * intros r [= <-] [Ht|Ht]; auto.
      * discriminate.
    + eexists. split; [reflexivity|]. split; [discriminate|]. intros _.
      split; [|split]; try discriminate. reflexivity.
  - eexists. split; [reflexivity|]. split; [reflexivity|]. discriminate.
Qed.

End AnalysisClaims.

(** * Payment dates *)

Section PaymentDateFacts.
Import JSDate Pricer Spec.
Variable h : Host.



End PaymentDateFacts.

Section DateClaims.
Import JSDate Pricer Spec UtcDate Examples.




End DateClaims.

(** * Counting the rows *)

Section RowCount.
Import JSDate Pricer Spec.
Variable h : Host.
Variable deal : SwapDeal.
Variables s e : Z.
Hypothesis Hs : parse (startDate deal) = Some s.
Hypothesis He : parse (endDate deal) = Some e.
Hypothesis Hday : localDay h s <= 28.










End RowCount.

Section CountClaims.
Import JSDate Pricer Spec UtcDate Examples.




End CountClaims.

(** * Facts about binary64 arithmetic *)

Section FloatFacts.

Lemma digits2_pos_size p : digits2_pos p = Pos.size p.
Proof. induction p as [p IH|p IH|]; cbn; [rewrite IH|rewrite IH|]; reflexivity. Qed.




Lemma round_nearest_even_bounds q l :
  q <= round_nearest_even q l <= q + 1.
Proof.
  unfold round_nearest_even. destruct l as [|[]]; try lia.
  destruct (Z.even q); lia.
Qed.


End FloatFacts.

Section FloatIntervals.



End FloatIntervals.

Section QuarterDiscount.


End QuarterDiscount.

Section FrequencyClaims.
Import JSDate Pricer Spec UtcDate Examples.
Local Open Scope string_scope.






End FrequencyClaims.

(** * Round trips between date strings and time values *)

Section DateRoundTrip.
Import JSDate Pricer Spec.
Local Open Scope string_scope.

Lemma length_append (a b : string) :
  String.length (a ++ b) = (String.length a + String.length b)%nat.
Proof. induction a as [|x a IH]; cbn; [reflexivity|now rewrite IH]. Qed.

Lemma length_digitsOf w : forall z, String.length (digitsOf w z) = w.
Proof.
  induction w as [|w IH]; intros z; [reflexivity|].
  cbn [digitsOf]. rewrite length_append, IH. cbn. lia.
Qed.

(** X1.  For every date-only string [YYYY-MM-DD] that names an existing
    day of a year from 0 to 9999, [new Date] reads it as midnight UTC of
    that day and [formatDate (new Date (s))] gives back the string:
    formatting undoes parsing. *)
Theorem formatDate_parse_round_trip y m d :
  0 <= y <= 9999 -> 1 <= m <= 12 -> 1 <= d <= DaysInMonth y (m - 1) ->
  parse (digitsOf 4 y ++ "-" ++ digitsOf 2 m ++ "-" ++ digitsOf 2 d)
  = Some (MakeDay y (m - 1) d * msPerDay)
  /\ formatDate (parse (digitsOf 4 y ++ "-" ++ digitsOf 2 m ++ "-"
                        ++ digitsOf 2 d))
     = JS.Normal (digitsOf 4 y ++ "-" ++ digitsOf 2 m ++ "-" ++ digitsOf 2 d).
Proof.
  intros Hy Hm Hd.
  assert (Hrange : minTime <= MakeDay y (m - 1) d * msPerDay <= maxTime).
  { unfold DaysInMonth, MakeDay in Hd. unfold MakeDay, minTime, maxTime.
    replace (12 * y + (m - 1 + 1)) with (12 * y + (m - 1) + 1) in Hd by lia.
    pose proof (firstOfMonth_mono 0 (12 * y + (m - 1)) ltac:(lia)) as Hlo.
    pose proof (firstOfMonth_mono (12 * y + (m - 1) + 1) 120000 ltac:(lia))
      as Hhi.
    rewrite firstOfMonth_0 in Hlo. rewrite firstOfMonth_120000 in Hhi.
    remember (firstOfMonth (12 * y + (m - 1) + 1)) as Fb eqn:EFb.
    remember (firstOfMonth (12 * y + (m - 1))) as Fa eqn:EFa.
    clear EFa EFb. unfold msPerDay. lia. }
  set (t := MakeDay y (m - 1) d * msPerDay) in *.
  assert (Hday : Day t = MakeDay y (m - 1) d)
    by (unfold t, Day, msPerDay; lia).
  assert (Hstr : dateString t
                 = digitsOf 4 y ++ "-" ++ digitsOf 2 m ++ "-" ++ digitsOf 2 d).
  { unfold dateString, YearFromTime, MonthFromTime, DateFromTime.
    rewrite Hday, civilFromDay_MakeDay by lia. cbn [fst snd].
    unfold yearString.
    replace ((0 <=? y)%Z && (y <=? 9999)%Z) with true
      by (symmetry; apply andb_true_intro; split; lia).
    replace (m - 1 + 1) with m by lia. reflexivity. }
  assert (Hparse : parse (digitsOf 4 y ++ "-" ++ digitsOf 2 m ++ "-"
                            ++ digitsOf 2 d) = Some t).
  { rewrite <- Hstr, parse_dateString by exact Hrange.
    rewrite Hday. reflexivity. }
  split; [exact Hparse|].
  rewrite Hparse, formatDate_Some, Hstr. reflexivity.
Qed.

Lemma formatDate_parse_round_trip_witness :
  parse "2024-02-29" = Some 1709164800000
  /\ formatDate (parse "2024-02-29") = JS.Normal "2024-02-29".
Proof.
  apply (formatDate_parse_round_trip 2024 2 29); vm_compute; split; congruence.
Defined.

(** X2.  For every time value from year 0 to year 9999, [formatDate]
    returns a string of exactly 10 characters, and [new Date] reads that
    string back as midnight UTC of the same day; a time value that is
    already a midnight UTC is read back unchanged. *)
Theorem parse_formatDate_round_trip t :
  minTime <= t <= maxTime ->
  exists s,
    formatDate (Some t) = JS.Normal s
    /\ String.length s = 10%nat
    /\ parse s = Some (t - t mod msPerDay)
    /\ (t mod msPerDay = 0 -> parse s = Some t).
Proof.
  intros Ht. exists (dateString t).
  assert (Hp : parse (dateString t) = Some (t - t mod msPerDay)).
  { rewrite parse_dateString by exact Ht. f_equal.
    unfold Day, msPerDay. lia. }
  split; [apply formatDate_Some|]. split; [|split].
  - pose proof (year_in_range t Ht) as Hy.
    unfold dateString, yearString.
    replace ((0 <=? YearFromTime t)%Z && (YearFromTime t <=? 9999)%Z) with true
      by (symmetry; apply andb_true_intro; split; lia).
    rewrite !length_append. cbn [String.length].
    rewrite !length_digitsOf. reflexivity.
  - exact Hp.
  - intros H0. rewrite Hp. f_equal. lia.
Qed.

Lemma parse_formatDate_round_trip_witness :
  exists s,
    formatDate (Some 1709210096789) = JS.Normal s
    /\ String.length s = 10%nat
    /\ parse s = Some (1709210096789 - 1709210096789 mod msPerDay)
    /\ (1709210096789 mod msPerDay = 0 -> parse s = Some 1709210096789).
Proof.
  apply (parse_formatDate_round_trip 1709210096789).
  unfold minTime, maxTime. lia.
Defined.

End DateRoundTrip.

(** * Stepping by months *)

Section AddMonthsLaws.
Import JSDate Pricer Spec.
Variable h : Host.

Lemma firstOfMonth_upper a b :
  a <= b -> firstOfMonth b <= firstOfMonth a + 31 * (b - a).
Proof.
  intros Hab. replace b with (a + Z.of_nat (Z.to_nat (b - a))) by lia.
  generalize (Z.to_nat (b - a)) as n. clear b Hab.
  induction n as [|n IH].
  - replace (a + Z.of_nat 0) with a by lia. lia.
  - pose proof (firstOfMonth_step (a + Z.of_nat n)).
    replace (a + Z.of_nat (S n)) with (a + Z.of_nat n + 1) by lia. lia.
Qed.

Lemma TimeClip_Some t c : TimeClip t = Some c -> c = t.
Proof.
  unfold TimeClip. destruct (Z.abs _ <=? _); [|discriminate]. now intros [= <-].
Qed.

Lemma addMonths_zero t :
  Z.abs t <= 8640000000000000 -> addMonths h (Some t) 0 = Some t.
Proof.
  intros Ht. rewrite addMonths_Some.
  replace (localMonth h t + 0) with (localMonth h t) by lia.
  replace (t + (firstOfMonth (localMonth h t) - firstOfMonth (localMonth h t))
               * msPerDay) with t by lia.
  unfold TimeClip. apply Z.leb_le in Ht. now rewrite Ht.
Qed.

Lemma addMonths_compose t a b t1 :
  localDay h t <= 28 -> addMonths h (Some t) a = Some t1 ->
  addMonths h (Some t1) b = addMonths h (Some t) (a + b).
Proof.
  intros Hday Ha.
  pose proof (firstOfMonth_step (localMonth h t + a)) as Hlen.
  destruct (addMonths_exact h t a t1 Ha ltac:(lia)) as [Hm _].
  rewrite addMonths_Some in Ha. apply TimeClip_Some in Ha.
  rewrite !addMonths_Some, Hm. f_equal. subst t1.
  replace (localMonth h t + (a + b)) with (localMonth h t + a + b) by lia.
  lia.
Qed.

Lemma addMonths_span t k c :
  0 <= k -> addMonths h (Some t) k = Some c ->
  28 * k * msPerDay <= c - t <= 31 * k * msPerDay
  /\ (c - t) mod msPerDay = 0.
Proof.
  intros Hk Hc. rewrite addMonths_Some in Hc. apply TimeClip_Some in Hc.
  pose proof (firstOfMonth_mono (localMonth h t) (localMonth h t + k)
                ltac:(lia)) as Hlo.
  pose proof (firstOfMonth_upper (localMonth h t) (localMonth h t + k)
                ltac:(lia)) as Hhi.
  subst c.
  generalize dependent (firstOfMonth (localMonth h t + k)).
  generalize (firstOfMonth (localMonth h t)). intros F0 F1 Hlo Hhi.
  replace (t + (F1 - F0) * msPerDay - t) with ((F1 - F0) * msPerDay) by lia.
  split; [unfold msPerDay; nia|].
  apply Z.mod_mul. unfold msPerDay. lia.
Qed.

Lemma localDay_le_month t :
  1 <= localDay h t
       <= firstOfMonth (localMonth h t + 1) - firstOfMonth (localMonth h t).
Proof.
  unfold localDay, localMonth.
  pose proof (monthAndDay_spec (Day (LocalTime (LocalTZA h) t))) as (H1 & H2 & H3).
  lia.
Qed.

End AddMonthsLaws.

Section AddMonthsExtras.
Import JSDate Pricer Spec UtcDate Examples.

(** X3.  On a host whose local time is UTC, [addMonths (d, 0)] is [d]
    for every valid Date [d]: reading a date's month and writing it back
    changes nothing. *)
Theorem addMonths_zero_identity h t :
  LocalTZA h = 0 ->
  Z.abs t <= 8640000000000000 -> addMonths h (Some t) 0 = Some t.
Proof. intros _. apply addMonths_zero. Qed.

Lemma addMonths_zero_identity_witness :
  addMonths exampleHost (Some 1738281600123) 0 = Some 1738281600123.
Proof.
  apply (addMonths_zero_identity exampleHost 1738281600123);
    [reflexivity|lia].
Defined.

(** X4.  On a host whose local time is UTC, for a valid date whose day
    of the month is at most 28, month steps compose: adding [a] months
    and then [b] months is adding [a + b] months, and stepping back by
    [a] months returns to the date. *)
Theorem addMonths_steps_compose h t a b t1 :
  LocalTZA h = 0 ->
  Z.abs t <= 8640000000000000 -> utcDay t <= 28 ->
  addMonths h (Some t) a = Some t1 ->
  addMonths h (Some t1) b = addMonths h (Some t) (a + b)
  /\ addMonths h (Some t1) (- a) = Some t.
Proof.
  intros Hz Ht Hday Ha.
  destruct (local_utc h t Hz) as [_ Hd]. rewrite <- Hd in Hday.
  split; [now apply addMonths_compose|].
  rewrite (addMonths_compose h t a (- a) t1 Hday Ha).
  replace (a + - a) with 0 by lia.
  now apply addMonths_zero.
Qed.

Lemma addMonths_steps_compose_witness :
  addMonths exampleHost (Some 1735689600000) 3
  = addMonths exampleHost (Some 1727740800000) (3 + 3)
  /\ addMonths exampleHost (Some 1735689600000) (- 3) = Some 1727740800000.
Proof.
  apply (addMonths_steps_compose exampleHost 1727740800000 3 3 1735689600000).
  - reflexivity.
  - lia.
  - vm_compute. discriminate.
  - vm_compute. reflexivity.
Defined.

(** X5.  On a host whose local time is UTC, adding [k >= 0] months to a
    valid Date moves it forward by a whole number of days, at least
    [28 * k] and at most [31 * k]: the time of day is kept and the date
    never moves backwards. *)
Theorem addMonths_days_moved h t k c :
  LocalTZA h = 0 ->
  0 <= k -> addMonths h (Some t) k = Some c ->
  28 * k * msPerDay <= c - t <= 31 * k * msPerDay
  /\ (c - t) mod msPerDay = 0.
Proof. intros _. apply addMonths_span. Qed.

Lemma addMonths_days_moved_witness :
  28 * 1 * msPerDay <= 1740960000000 - 1738281600000 <= 31 * 1 * msPerDay
  /\ (1740960000000 - 1738281600000) mod msPerDay = 0.
Proof.
  apply (addMonths_days_moved exampleHost 1738281600000 1 1740960000000).
  - reflexivity.
  - lia.
  - vm_compute. reflexivity.
Defined.

(** X6.  [addMonths] does not clamp to the end of a month.  When the
    local day of the month of the date is larger than the number of days
    of the target month, the result lies in the month after the target
    month, on the day of the month reduced by the target month's
    length. *)
Theorem addMonths_month_end_overflow h t k c :
  addMonths h (Some t) k = Some c ->
  firstOfMonth (localMonth h t + k + 1) - firstOfMonth (localMonth h t + k)
    < localDay h t ->
  localMonth h c = localMonth h t + k + 1
  /\ localDay h c
     = localDay h t
       - (firstOfMonth (localMonth h t + k + 1)
          - firstOfMonth (localMonth h t + k)).
Proof.
  intros Hc. rewrite addMonths_Some in Hc. apply TimeClip_Some in Hc. subst c.
  pose proof (localDay_le_month h t) as Hdd.
  pose proof (firstOfMonth_step (localMonth h t)) as Hlen0.
  pose proof (firstOfMonth_step (localMonth h t + k)) as Hlen1.
  pose proof (firstOfMonth_step (localMonth h t + k + 1)) as Hlen2.
  revert Hdd. unfold localMonth, localDay, LocalTime.
  set (tl := t + LocalTZA h).
  pose proof (monthAndDay_spec (Day tl)) as (H1 & H2 & _).
  set (i := fst (monthAndDay (Day tl))) in *.
  set (dd := snd (monthAndDay (Day tl))) in *.
  intros Hdd Hover.
  replace (t + (firstOfMonth (i + k) - firstOfMonth i) * msPerDay + LocalTZA h)
    with (tl + (firstOfMonth (i + k) - firstOfMonth i) * msPerDay)
    by (unfold tl; lia).
  assert (HD : Day (tl + (firstOfMonth (i + k) - firstOfMonth i) * msPerDay)
               = firstOfMonth (i + k) + dd - 1).
  { unfold Day in *. rewrite Z.div_add by (unfold msPerDay; lia). lia. }
  unfold localMonth, LocalTime in Hlen0, Hlen1, Hlen2. fold tl in Hlen0, Hlen1, Hlen2.
  fold i in Hlen0, Hlen1, Hlen2.
  rewrite HD, (monthAndDay_unique _ (i + k + 1)) by lia.
  cbn [fst snd]. lia.
Qed.

Lemma addMonths_month_end_overflow_witness :
  localMonth exampleHost 1740960000000
  = localMonth exampleHost 1738281600000 + 1 + 1
  /\ localDay exampleHost 1740960000000
     = localDay exampleHost 1738281600000
       - (firstOfMonth (localMonth exampleHost 1738281600000 + 1 + 1)
          - firstOfMonth (localMonth exampleHost 1738281600000 + 1)).
Proof.
  apply (addMonths_month_end_overflow exampleHost 1738281600000 1 1740960000000).
  - vm_compute. reflexivity.
  - vm_compute. reflexivity.
Defined.

End AddMonthsExtras.

(** * What the rows depend on *)

Section ScheduleFacts.
Import JSDate Pricer Spec.
Variable h : Host.

(** Payment dates depend on the start date and the month step only. *)
Lemma paymentDate_same deal deal' i :
  startDate deal = startDate deal' -> stepMonths deal = stepMonths deal' ->
  paymentDate h deal i = paymentDate h deal' i.
Proof.
  intros Hs Hk. induction i as [|i IH]; cbn [paymentDate].
  - now rewrite Hs, Hk.
  - now rewrite IH, Hk.
Qed.

Lemma rowAt_same deal deal' cur period n :
  stepMonths deal = stepMonths deal' ->
  notional (leg1 deal) = notional (leg1 deal') ->
  rate (leg1 deal) = rate (leg1 deal') ->
  type (leg1 deal) = type (leg1 deal') ->
  notional (leg2 deal) = notional (leg2 deal') ->
  rate (leg2 deal) = rate (leg2 deal') ->
  type (leg2 deal) = type (leg2 deal') ->
  rowAt h deal cur period n = rowAt h deal' cur period n.
Proof.
  intros Hk Hn1 Hr1 Ht1 Hn2 Hr2 Ht2.
  unfold rowAt, discount, timeFraction, interest, effectiveRateAt, draws.
  rewrite Hk, Hn1, Hr1, Ht1, Hn2, Hr2, Ht2. reflexivity.
Qed.

Lemma rowsOf_same deal deal' st n :
  startDate deal = startDate deal' ->
  stepMonths deal = stepMonths deal' ->
  notional (leg1 deal) = notional (leg1 deal') ->
  rate (leg1 deal) = rate (leg1 deal') ->
  type (leg1 deal) = type (leg1 deal') ->
  notional (leg2 deal) = notional (leg2 deal') ->
  rate (leg2 deal) = rate (leg2 deal') ->
  type (leg2 deal) = type (leg2 deal') ->
  rowsOf h deal st n = rowsOf h deal' st n
  /\ drawsPerRow deal = drawsPerRow deal'.
Proof.
  intros Hs Hk Hn1 Hr1 Ht1 Hn2 Hr2 Ht2.
  assert (Hd : drawsPerRow deal = drawsPerRow deal')
    by (unfold drawsPerRow, draws; now rewrite Ht1, Ht2).
  split; [|exact Hd].
  unfold rowsOf. apply map_ext. intros i.
  rewrite (paymentDate_same deal deal' i Hs Hk), Hd.
  now apply rowAt_same.
Qed.

Lemma firstn_map_seq {A} (f : nat -> A) n m :
  (n <= m)%nat -> firstn n (map f (seq 0 m)) = map f (seq 0 n).
Proof.
  intros Hnm. rewrite firstn_map. f_equal.
  replace m with (n + (m - n))%nat by lia.
  rewrite seq_app, firstn_app, length_seq, Nat.sub_diag, firstn_O, app_nil_r.
  rewrite <- (length_seq n 0) at 1. apply firstn_all.
Qed.

(** Every step moves a payment date by at least [28 * stepMonths]
    days. *)
Lemma paymentDate_lower deal : forall i c s,
  parse (startDate deal) = Some s ->
  paymentDate h deal i = Some c ->
  s + (Z.of_nat i + 1) * (28 * stepMonths deal * msPerDay) <= c.
Proof.
  intros i c s Hs. revert c.
  pose proof (stepMonths_pos deal) as Hk.
  induction i as [|i IH]; intros c Hc; cbn [paymentDate] in Hc.
  - rewrite Hs in Hc.
    destruct (addMonths_span h s (stepMonths deal) c ltac:(lia) Hc) as [Hspan _].
    change (Z.of_nat 0) with 0. lia.
  - destruct (paymentDate h deal i) as [c0|] eqn:Hc0; [|discriminate].
    specialize (IH c0 eq_refl).
    destruct (addMonths_span h c0 (stepMonths deal) c ltac:(lia) Hc) as [Hspan _].
    rewrite Nat2Z.inj_succ. lia.
Qed.

End ScheduleFacts.

Section ScheduleExtras.
Import JSDate Pricer Spec Examples.
Local Open Scope string_scope.

(** X7.  For a deal whose start and end dates are date-only strings of
    existing days: when the end date is earlier than the first payment
    date (the dates are too close or in the wrong order),
    [handleCalculate] still returns a result: it has no cashflows, its
    three sums are 0, and no random value is drawn. *)
Theorem handleCalculate_empty_schedule h deal st s e :
  parse (startDate deal) = Some s -> parse (endDate deal) = Some e ->
  leb (addMonths h (Some s) (stepMonths deal)) (Some e) = false ->
  exists result,
    handleCalculate h (world deal st) = JS.Normal (result, world deal st)
    /\ cashflows result = []
    /\ npvTotal result = 0%float
    /\ leg1Npv result = 0%float
    /\ leg2Npv result = 0%float
    /\ npvTotalFormatted result
       = "USD " ++ Number_toLocaleString h (Some 2) 0%float.
Proof.
  intros Hs He Hout.
  assert (Hout' : leb (paymentDate h deal 0) (parse (endDate deal)) = false)
    by (cbn [paymentDate]; rewrite Hs, He; exact Hout).
  pose proof (generateSmartCashflows_count h deal st 0
                ltac:(intros i Hi; lia) Hout') as Hrun.
  rewrite Nat.mul_0_l, Nat.add_0_r in Hrun. cbn [rowsOf seq map] in Hrun.
  eexists. unfold handleCalculate. unfold JS.bind at 1. rewrite Hrun.
  unfold JS.bind, deref, JS.ret, world. cbn [dealObject fold_left].
  split; [reflexivity|].
  cbn [cashflows npvTotal leg1Npv leg2Npv npvTotalFormatted].
  repeat split.
Qed.

Lemma handleCalculate_empty_schedule_witness :
  exists result,
    handleCalculate exampleHost (world backwardsDeal 5)
    = JS.Normal (result, world backwardsDeal 5)
    /\ cashflows result = []
    /\ npvTotal result = 0%float
    /\ leg1Npv result = 0%float
    /\ leg2Npv result = 0%float
    /\ npvTotalFormatted result
       = "USD " ++ Number_toLocaleString exampleHost (Some 2) 0%float.
Proof.
  apply (handleCalculate_empty_schedule exampleHost backwardsDeal 5
           1743465600000 1727740800000);
    vm_compute; reflexivity.
Defined.

(** X9.  The rows depend on the deal only through its start date, its
    end date, leg 1's frequency and the notional, rate and type of the
    two legs.  Deals that agree on these get the same rows and make the
    same number of draws, whatever their currencies, day-count
    conventions, value date, leg-2 frequency, id and status. *)
Theorem rows_ignore_other_fields h deal deal' st :
  startDate deal = startDate deal' ->
  endDate deal = endDate deal' ->
  frequency (leg1 deal) = frequency (leg1 deal') ->
  notional (leg1 deal) = notional (leg1 deal') ->
  rate (leg1 deal) = rate (leg1 deal') ->
  type (leg1 deal) = type (leg1 deal') ->
  notional (leg2 deal) = notional (leg2 deal') ->
  rate (leg2 deal) = rate (leg2 deal') ->
  type (leg2 deal) = type (leg2 deal') ->
  exists rows n,
    generateSmartCashflows h (world deal st) = JS.Normal (rows, world deal n)
    /\ generateSmartCashflows h (world deal' st)
       = JS.Normal (rows, world deal' n).
Proof.
  intros Hs He Hf Hn1 Hr1 Ht1 Hn2 Hr2 Ht2.
  assert (Hk : stepMonths deal = stepMonths deal')
    by (unfold stepMonths; now rewrite Hf).
  destruct (generateSmartCashflows_run h deal st) as (n & Hrun & Hin & Hout).
  destruct (rowsOf_same h deal deal' st n Hs Hk Hn1 Hr1 Ht1 Hn2 Hr2 Ht2)
    as [Hrows Hd].
  exists (rowsOf h deal st n), (st + n * drawsPerRow deal)%nat.
  split; [exact Hrun|].
  rewrite Hrows, Hd. apply generateSmartCashflows_count.
  - intros i Hi. rewrite <- (paymentDate_same h deal deal' i Hs Hk), <- He.
    now apply Hin.
  - rewrite <- (paymentDate_same h deal deal' n Hs Hk), <- He. exact Hout.
Qed.

Lemma rows_ignore_other_fields_witness :
  exists rows n,
    generateSmartCashflows exampleHost (world scenarioDeal 0)
    = JS.Normal (rows, world scenarioDeal n)
    /\ generateSmartCashflows exampleHost
         (world {| id := Some "SWP-004"; status := Some Matured;
                   valueDate := "2024-09-27";
                   startDate := "2024-10-01"; endDate := "2025-04-01";
                   leg1 := {| currency := "BRL"; notional := 1000000;
                              rate := 4; type := Fixed;
                              frequency := "Quarterly";
                              convention := "30/360" |};
                   leg2 := {| currency := "JPY"; notional := 1000000;
                              rate := 4; type := Fixed;
                              frequency := "Annual";
                              convention := "Actual/360" |} |} 0)
       = JS.Normal
           (rows,
            world {| id := Some "SWP-004"; status := Some Matured;
                     valueDate := "2024-09-27";
                     startDate := "2024-10-01"; endDate := "2025-04-01";
                     leg1 := {| currency := "BRL"; notional := 1000000;
                                rate := 4; type := Fixed;
                                frequency := "Quarterly";
                                convention := "30/360" |};
                     leg2 := {| currency := "JPY"; notional := 1000000;
                                rate := 4; type := Fixed;
                                frequency := "Annual";
                                convention := "Actual/360" |} |} n).
Proof.
  apply (rows_ignore_other_fields exampleHost scenarioDeal
           {| id := Some "SWP-004"; status := Some Matured;
              valueDate := "2024-09-27";
              startDate := "2024-10-01"; endDate := "2025-04-01";
              leg1 := {| currency := "BRL"; notional := 1000000;
                         rate := 4; type := Fixed;
                         frequency := "Quarterly";
                         convention := "30/360" |};
              leg2 := {| currency := "JPY"; notional := 1000000;
                         rate := 4; type := Fixed;
                         frequency := "Annual";
                         convention := "Actual/360" |} |} 0);
    reflexivity.
Defined.

(** X10.  Moving the end date later only appends rows: for two deals
    that differ in the end date alone, the rows for the earlier end date
    are the first rows for the later one. *)
Theorem later_end_date_appends_rows h deal deal' st e e' :
  startDate deal = startDate deal' ->
  leg1 deal = leg1 deal' -> leg2 deal = leg2 deal' ->
  parse (endDate deal) = Some e -> parse (endDate deal') = Some e' ->
  e <= e' ->
  exists rows rows' w w',
    generateSmartCashflows h (world deal st) = JS.Normal (rows, w)
    /\ generateSmartCashflows h (world deal' st) = JS.Normal (rows', w')
    /\ (List.length rows <= List.length rows')%nat
    /\ rows = firstn (List.length rows) rows'.
Proof.
  intros Hs Hl1 Hl2 He He' Hle.
  assert (Hk : stepMonths deal = stepMonths deal')
    by (unfold stepMonths; now rewrite Hl1).
  destruct (generateSmartCashflows_run h deal st) as (n & Hrun & Hin & Hout).
  destruct (generateSmartCashflows_run h deal' st) as (n' & Hrun' & Hin' & Hout').
  assert (Hnn : (n <= n')%nat).
  { destruct (le_lt_dec n n') as [|Hlt]; [assumption|exfalso].
    specialize (Hin n' Hlt).
    rewrite (paymentDate_same h deal deal' n' Hs Hk), He in Hin.
    rewrite He' in Hout'.
    destruct (paymentDate h deal' n') as [c|]; [|discriminate].
    cbn in Hin, Hout'. apply Z.leb_le in Hin. apply Z.leb_gt in Hout'. lia. }
  destruct (rowsOf_same h deal deal' st n Hs Hk) as [Hrows _];
    try now (rewrite ?Hl1, ?Hl2).
  eexists _, _, _, _. split; [exact Hrun|]. split; [exact Hrun'|].
  rewrite !rowsOf_length. split; [exact Hnn|].
  rewrite Hrows. unfold rowsOf. symmetry. now apply firstn_map_seq.
Qed.

Lemma later_end_date_appends_rows_witness :
  exists rows rows' w w',
    generateSmartCashflows exampleHost (world smallDeal 0) = JS.Normal (rows, w)
    /\ generateSmartCashflows exampleHost
         (world (deal "2025-01-01" "2025-06-15"
                   (leg Fixed 1000 1 "Monthly") (leg Fixed 1000 1 "Monthly")) 0)
       = JS.Normal (rows', w')
    /\ (List.length rows <= List.length rows')%nat
    /\ rows = firstn (List.length rows) rows'.
Proof.
  apply (later_end_date_appends_rows exampleHost smallDeal
           (deal "2025-01-01" "2025-06-15"
              (leg Fixed 1000 1 "Monthly") (leg Fixed 1000 1 "Monthly"))
           0 1738368000000 1749945600000);
    try reflexivity.
  lia.
Defined.

(** X11.  The number of rows is bounded by the time between the two
    dates: every row needs at least [28 * stepMonths] days, so a run on
    valid dates [s] and [e] returns at most
    [(e - s) / (28 * stepMonths days)] rows. *)
Theorem row_count_bounded h deal st s e :
  parse (startDate deal) = Some s -> parse (endDate deal) = Some e ->
  exists rows w',
    generateSmartCashflows h (world deal st) = JS.Normal (rows, w')
    /\ Z.of_nat (List.length rows) * (28 * stepMonths deal * msPerDay)
       <= Z.max 0 (e - s).
Proof.
  intros Hs He.
  destruct (generateSmartCashflows_run h deal st) as (n & Hrun & Hin & _).
  eexists _, _. split; [exact Hrun|]. rewrite rowsOf_length.
  destruct n as [|n]; [cbn; lia|].
  specialize (Hin n ltac:(lia)). rewrite He in Hin.
  destruct (paymentDate h deal n) as [c|] eqn:Hc; [|discriminate].
  cbn in Hin. apply Z.leb_le in Hin.
  pose proof (paymentDate_lower h deal n c s Hs Hc) as Hlow.
  rewrite Nat2Z.inj_succ. lia.
Qed.

Lemma row_count_bounded_witness :
  exists rows w',
    generateSmartCashflows exampleHost (world scenarioDeal 0)
    = JS.Normal (rows, w')
    /\ Z.of_nat (List.length rows) * (28 * stepMonths scenarioDeal * msPerDay)
       <= Z.max 0 (1743465600000 - 1727740800000).
Proof.
  apply (row_count_bounded exampleHost scenarioDeal 0);
    vm_compute; reflexivity.
Defined.

End ScheduleExtras.

(** * The state of [App] *)

Section AppFacts.
Import Pricer Spec App.
Variable h : Host.

(** The digits of an identifier read back as the number they were made
    from, whatever the padding. *)
Lemma padded_decode k n :
  exists d,
    NilEmpty.uint_of_string (repeatChar "0" k ++ natToString n)%string = Some d
    /\ Nat.of_uint d = n.
Proof.
  induction k as [|k (d & Hd & Hn)].
  - exists (Nat.to_uint n). split; [apply NilEmpty.usu|apply Unsigned.of_to].
  - exists (Decimal.D0 d). cbn [repeatChar append NilEmpty.uint_of_string].
    rewrite Hd. split; [reflexivity|exact Hn].
Qed.

Lemma padded_inj k k' n m :
  (repeatChar "0" k ++ natToString n = repeatChar "0" k' ++ natToString m)%string ->
  n = m.
Proof.
  intros Heq.
  destruct (padded_decode k n) as (d & Hd & Hn).
  destruct (padded_decode k' m) as (d' & Hd' & Hm).
  rewrite Heq, Hd' in Hd. injection Hd as <-. congruence.
Qed.

Lemma append_inj_l (a x y : string) : (a ++ x = a ++ y)%string -> x = y.
Proof.
  induction a as [|c a IH]; cbn; [trivial|]. intros [= Heq]. now apply IH.
Qed.

Lemma newId_inj (a b : list SwapDeal) :
  newId a = newId b -> List.length a = List.length b.
Proof.
  unfold newId, padStart. intros Heq.
  apply append_inj_l, padded_inj in Heq. lia.
Qed.

Lemma numbered_nil : numbered [].
Proof. intros [|? ?] ? ? Heq; discriminate Heq. Qed.

Lemma numbered_cons d ds :
  id d = Some (newId (ds ++ initialDeals)) -> numbered ds -> numbered (d :: ds).
Proof.
  intros Hd Hds [|x pre] d' post Heq; cbn in Heq; injection Heq as -> ->.
  - exact Hd.
  - now apply (Hds pre d' post).
Qed.

Lemma numbered_tail d ds : numbered (d :: ds) -> numbered ds.
Proof. intros H pre d' post ->. now apply (H (d :: pre) d' post). Qed.

(** The initial deals carry the first three identifiers. *)
Lemma initial_ids d :
  In d initialDeals ->
  exists l : list SwapDeal, id d = Some (newId l) /\ (List.length l < 3)%nat.
Proof.
  intros [<-|[<-|[<-|[]]]].
  - exists []. split; [reflexivity|cbn; lia].
  - exists (firstn 1 initialDeals). split; [reflexivity|cbn; lia].
  - exists (firstn 2 initialDeals). split; [reflexivity|cbn; lia].
Qed.

Lemma initial_NoDup : NoDup (map id initialDeals).
Proof.
  cbn. repeat constructor; cbn; intuition discriminate.
Qed.

Lemma numbered_NoDup added :
  numbered added -> NoDup (map id (added ++ initialDeals)).
Proof.
  induction added as [|d ds IH]; intros Hnum; [apply initial_NoDup|].
  cbn [app map]. constructor.
  - rewrite (Hnum [] d ds eq_refl). intros Hin.
    apply in_map_iff in Hin as (d' & Hid & Hin').
    apply in_app_or in Hin' as [Hin'|Hin'].
    + apply in_split in Hin' as (pre & post & ->).
      rewrite (Hnum (d :: pre) d' post eq_refl) in Hid.
      assert (Heq : newId (post ++ initialDeals)
                    = newId ((pre ++ d' :: post) ++ initialDeals))
        by congruence.
      apply newId_inj in Heq. rewrite !length_app in Heq. cbn in Heq. lia.
    + destruct (initial_ids d' Hin') as (l & Hl & Hlen).
      assert (Heq : newId l = newId (ds ++ initialDeals)) by congruence.
      apply newId_inj in Heq. rewrite length_app in Heq. cbn in Heq. lia.
  - apply IH. now apply numbered_tail in Hnum.
Qed.

(** [Pricer.handleCalculate] returns, and leaves the deal object as it
    was. *)
Lemma handleCalculate_returns inputDeal st :
  exists result n,
    Pricer.handleCalculate h (world inputDeal st)
    = JS.Normal (result, world inputDeal n)
    /\ principal result = notional (leg2 inputDeal)
    /\ spread result
       = (abs (rate (leg1 inputDeal) - rate (leg2 inputDeal)) * 100)%float.
Proof.
  destruct (generateSmartCashflows_run h inputDeal st) as (n & Hrun & _).
  eexists _, _. unfold Pricer.handleCalculate. unfold JS.bind at 1.
  rewrite Hrun. unfold JS.bind, deref, JS.ret, world. cbn [dealObject].
  split; [reflexivity|]. cbn [spread principal]. split; reflexivity.
Qed.

Lemma invariant_initial n : invariant (initialState n).
Proof.
  constructor; cbn.
  - exists []. split; [reflexivity|apply numbered_nil].
  - discriminate.
  - discriminate.
  - discriminate.
Qed.

Lemma invariant_setPage p st :
  p <> SETTINGS -> p <> RESULTS -> invariant st -> invariant (setPage p st).
Proof.
  intros Hp Hp' [H2 H3 H4 H5]. constructor; cbn; try assumption.
  intros ->. now elim Hp'.
Qed.

Lemma step_invariant st ev :
  invariant st -> exists st', step h st ev = JS.Normal st' /\ invariant st'.
Proof.
  intros Hinv. destruct ev as [| |inputDeal]; cbn [step].
  - eexists. split; [reflexivity|].
    apply invariant_setPage; [discriminate|discriminate|exact Hinv].
  - eexists. split; [reflexivity|].
    apply invariant_setPage; [discriminate|discriminate|exact Hinv].
  - destruct (handleCalculate_returns inputDeal (randomUsed st))
      as (result & n & Hrun & Hprin & Hspread).
    unfold App.handleCalculate. unfold world in Hrun. rewrite Hrun.
    eexists. split; [reflexivity|].
    destruct Hinv as [(added & H2 & H1) H3 H4 H5]. constructor; cbn.
    + eexists (_ :: added). rewrite H2. split; [reflexivity|].
      apply numbered_cons; [reflexivity|exact H1].
    + discriminate.
    + intros _. eexists _, _. split; reflexivity.
    + intros d r [= <-] [= <-]. cbn. repeat split; assumption.
Qed.

Lemma run_invariant events : forall st,
  invariant st ->
  exists st', run h st events = JS.Normal st' /\ invariant st'.
Proof.
  induction events as [|ev rest IH]; intros st Hinv; cbn [run].
  - now exists st.
  - destruct (step_invariant st ev Hinv) as (st1 & -> & Hinv1).
    now apply IH.
Qed.

End AppFacts.

Section AppHistory.
Import Pricer Spec App.
Variable h : Host.

(** Identifiers of up to 999 deals have exactly three digits. *)
Lemma three_digits n :
  (n < 1000)%nat -> String.length (padStart 3 "0" (natToString n)) = 3%nat.
Proof.
  intros Hn.
  assert (Hall : forallb (fun k => Nat.eqb (String.length
                              (padStart 3 "0" (natToString k))) 3)
                         (seq 0 1000) = true)
    by (vm_compute; reflexivity).
  rewrite forallb_forall in Hall.
  apply Nat.eqb_eq, Hall, in_seq. lia.
Qed.

(** The deals after a run are the deals before it with one deal put in
    front for every pricing request. *)
Lemma run_deals events : forall st st',
  run h st events = JS.Normal st' ->
  exists added,
    deals st' = added ++ deals st
    /\ List.length added = List.length (filter isCalculate events)
    /\ Forall (fun d => status d = Some Active) added.
Proof.
  induction events as [|ev rest IH]; intros st st'; cbn [run].
  - intros [= <-]. exists []. repeat split. constructor.
  - destruct (step h st ev) as [st1| |] eqn:Hstep; try discriminate.
    intros Hrun. destruct (IH st1 st' Hrun) as (added & Hd & Hlen & Hact).
    destruct ev as [| |inputDeal]; cbn [step] in Hstep.
    + injection Hstep as <-. exists added. cbn in *. now repeat split.
    + injection Hstep as <-. exists added. cbn in *. now repeat split.
    + unfold App.handleCalculate in Hstep.
      destruct (Pricer.handleCalculate h _) as [[result w]| |];
        try discriminate.
      injection Hstep as <-. cbn [deals] in Hd.
      eexists (added ++ [_]). rewrite <- app_assoc. cbn [app].
      split; [exact Hd|]. rewrite length_app. cbn.
      split; [lia|]. apply Forall_app. split; [exact Hact|].
      repeat constructor.
Qed.

End AppHistory.

Section AppExtras.
Import Pricer Spec App Examples.

(** X12.  [handleCalculate] always completes.  It puts one new deal in
    front of the list, a copy of the input deal with status Active and
    the identifier generated from the number of deals; it selects this
    deal and its pricing result and shows the results page.  The deals
    that were there stay as they were. *)
Theorem handleCalculate_updates_state h st inputDeal :
  exists st' newDeal result w,
    App.handleCalculate h st inputDeal = JS.Normal st'
    /\ Pricer.handleCalculate h (world inputDeal (randomUsed st))
       = JS.Normal (result, w)
    /\ deals st' = newDeal :: deals st
    /\ mainView st' = ShowResults newDeal result
    /\ id newDeal = Some (newId (deals st))
    /\ status newDeal = Some Active
    /\ valueDate newDeal = valueDate inputDeal
    /\ startDate newDeal = startDate inputDeal
    /\ endDate newDeal = endDate inputDeal
    /\ leg1 newDeal = leg1 inputDeal
    /\ leg2 newDeal = leg2 inputDeal
    /\ randomUsed st' = randomCalls w.
Proof.
  destruct (handleCalculate_returns h inputDeal (randomUsed st))
    as (result & n & Hrun & _).
  eexists _, _, result, _. unfold App.handleCalculate.
  unfold world in Hrun. unfold world. rewrite Hrun.
  split; [reflexivity|]. split; [reflexivity|]. cbn. repeat split.
Qed.

(** X13.  While there are fewer than 999 deals, the identifier of a new
    deal is ["SWP-"] followed by exactly three digits, and the digits
    read back as the number of deals plus one. *)
Theorem newId_format (ds : list SwapDeal) :
  (List.length ds < 999)%nat ->
  exists digits d,
    newId ds = ("SWP-" ++ digits)%string
    /\ String.length digits = 3%nat
    /\ NilEmpty.uint_of_string digits = Some d
    /\ Nat.of_uint d = (List.length ds + 1)%nat.
Proof.
  intros Hlen. unfold newId, padStart.
  destruct (padded_decode
              (3 - String.length (natToString (List.length ds + 1)))
              (List.length ds + 1)) as (d & Hd & Hn).
  eexists _, d. split; [reflexivity|]. split; [|split; assumption].
  apply (three_digits (List.length ds + 1)). lia.
Qed.

Lemma newId_format_witness :
  exists digits d,
    newId initialDeals = ("SWP-" ++ digits)%string
    /\ String.length digits = 3%nat
    /\ NilEmpty.uint_of_string digits = Some d
    /\ Nat.of_uint d = (List.length initialDeals + 1)%nat.
Proof. apply (newId_format initialDeals). cbn. lia. Defined.

(** X14.  Whatever the user does, the identifiers of the deals of [App]
    stay pairwise distinct: every sequence of navigations and pricing
    requests runs to a state whose deals have no identifier twice. *)
Theorem deal_ids_stay_distinct h n events :
  exists st,
    run h (initialState n) events = JS.Normal st
    /\ NoDup (map id (deals st))
    /\ forall d, In d (deals st) -> id d <> None.
Proof.
  destruct (run_invariant h events (initialState n) (invariant_initial n))
    as (st & Hrun & [(added & Hd & Hnum) _ _ _]).
  exists st. split; [exact Hrun|]. rewrite Hd. split.
  - now apply numbered_NoDup.
  - intros d Hin. apply in_app_or in Hin as [Hin|Hin].
    + apply in_split in Hin as (pre & post & ->).
      now rewrite (Hnum pre d post eq_refl).
    + destruct (initial_ids d Hin) as (l & -> & _). discriminate.
Qed.

(** X15.  [App] never renders an empty main area: in every state the
    user can reach, the main view is the dashboard, the pricing form or
    the results page, and the results page shows the deal at the front
    of the list together with a result computed from that deal's legs
    (its principal is the deal's leg-2 notional and its spread the
    absolute difference of the deal's rates times 100). *)
Theorem main_view_never_empty h n events :
  exists st,
    run h (initialState n) events = JS.Normal st
    /\ mainView st <> ShowNothing
    /\ forall d r,
         mainView st = ShowResults d r ->
         hd_error (deals st) = Some d
         /\ principal r = notional (leg2 d)
         /\ spread r = (abs (rate (leg1 d) - rate (leg2 d)) * 100)%float.
Proof.
  destruct (run_invariant h events (initialState n) (invariant_initial n))
    as (st & Hrun & [_ Hpage Hres Hcur]).
  exists st. split; [exact Hrun|]. unfold mainView.
  destruct (currentPage st) eqn:Hp.
  - split; [discriminate|]. intros d r Heq. discriminate Heq.
  - split; [discriminate|]. intros d r Heq. discriminate Heq.
  - destruct (Hres eq_refl) as (d0 & r0 & Hd0 & Hr0). rewrite Hd0, Hr0.
    split; [discriminate|]. intros d r [= <- <-]. now apply Hcur.
  - now elim Hpage.
Qed.

(** X16.  Deals are never removed or reordered: after any sequence of
    events the list is the initial deals with one Active deal put in
    front for every pricing request, so it is never empty. *)
Theorem deals_only_grow h n events :
  exists st added,
    run h (initialState n) events = JS.Normal st
    /\ deals st = added ++ initialDeals
    /\ List.length added = List.length (filter isCalculate events)
    /\ Forall (fun d => status d = Some Active) added
    /\ deals st <> [].
Proof.
  destruct (run_invariant h events (initialState n) (invariant_initial n))
    as (st & Hrun & _).
  destruct (run_deals h events _ _ Hrun) as (added & Hd & Hlen & Hact).
  exists st, added. cbn [deals initialState] in Hd.
  repeat split; try assumption.
  rewrite Hd. unfold initialDeals. now destruct added.
Qed.

End AppExtras.

(** * The analysis panel and the generated code *)

Section FenceFacts.
Import PricingCode.
Local Open Scope string_scope.

Lemma fenceTail_Some s r : fenceTail s = Some r -> s = fence ++ r.
Proof.
  destruct s as [|c1 [|c2 [|c3 s]]]; try discriminate. cbn.
  destruct (Ascii.eqb c1 backtick) eqn:E1; [|discriminate].
  destruct (Ascii.eqb c2 backtick) eqn:E2; [|discriminate].
  destruct (Ascii.eqb c3 backtick) eqn:E3; [|discriminate].
  apply Ascii.eqb_eq in E1, E2, E3. intros [= <-]. now subst.
Qed.

Lemma fenceTail_fence r : fenceTail (fence ++ r) = Some r.
Proof. reflexivity. Qed.

Lemma replaceFence_fence r : replaceFence (fence ++ r) = replaceFence r.
Proof. reflexivity. Qed.

Lemma replaceFence_other c s :
  fenceTail (String c s) = None ->
  replaceFence (String c s) = String c (replaceFence s).
Proof.
  destruct s as [|c2 [|c3 s]]; try reflexivity.
  cbn [fenceTail replaceFence].
  now destruct (Ascii.eqb c backtick && Ascii.eqb c2 backtick
                && Ascii.eqb c3 backtick).
Qed.

(** Strings are built from fences and from characters that do not start
    a fence. *)
Lemma fence_ind (P : string -> Prop) :
  P "" ->
  (forall r, P r -> P (fence ++ r)) ->
  (forall c s, fenceTail (String c s) = None -> P s -> P (String c s)) ->
  forall s, P s.
Proof.
  intros Hnil Hfence Hother s.
  assert (H : forall n s, (String.length s <= n)%nat -> P s).
  { clear s. induction n as [|n IH]; intros s Hlen.
    - destruct s; [exact Hnil|cbn in Hlen; lia].
    - destruct s as [|c s]; [exact Hnil|].
      destruct (fenceTail (String c s)) as [r|] eqn:Ef.
      + rewrite (fenceTail_Some _ _ Ef). apply Hfence, IH.
        apply fenceTail_Some in Ef. apply (f_equal String.length) in Ef.
        cbn in Ef, Hlen. lia.
      + apply Hother; [exact Ef|]. apply IH. cbn in Hlen. lia. }
  now apply (H (String.length s)).
Qed.

Lemma replaceFence_head s : forall r,
  replaceFence s = String backtick r -> exists s', s = String backtick s'.
Proof.
  induction s as [|r0 IH|c s Hc IH] using fence_ind; intros r.
  - discriminate.
  - intros _. now eexists.
  - rewrite (replaceFence_other c s Hc). intros [= -> _]. now eexists.
Qed.

Lemma replaceFence_head2 s : forall r,
  replaceFence s = String backtick (String backtick r) ->
  exists s', s = String backtick (String backtick s').
Proof.
  induction s as [|r0 IH|c s Hc IH] using fence_ind; intros r.
  - discriminate.
  - intros _. now eexists.
  - rewrite (replaceFence_other c s Hc). intros [= -> Hs].
    destruct (replaceFence_head s _ Hs) as (s' & ->). now eexists.
Qed.

(** After [replace(/```/g, '')] no fence is left. *)
Lemma replaceFence_clean s : hasFence (replaceFence s) = false.
Proof.
  induction s as [|r IH|c s Hc IH] using fence_ind.
  - reflexivity.
  - now rewrite replaceFence_fence.
  - rewrite (replaceFence_other c s Hc). cbn [hasFence].
    destruct (fenceTail (String c (replaceFence s))) as [r|] eqn:Ef;
      [exfalso|exact IH].
    apply fenceTail_Some in Ef. cbn in Ef. injection Ef as -> Hs.
    destruct (replaceFence_head2 s _ Hs) as (s' & ->).
    discriminate Hc.
Qed.

Lemma hasFence_app a b : hasFence (a ++ fence ++ b) = true.
Proof.
  induction a as [|c a IH]; [reflexivity|].
  cbn [append hasFence]. now destruct (fenceTail _).
Qed.

Lemma hasFence_true s :
  hasFence s = true -> exists a b, s = a ++ fence ++ b.
Proof.
  induction s as [|c s IH]; [discriminate|]. cbn [hasFence].
  destruct (fenceTail (String c s)) as [r|] eqn:Ef.
  - intros _. exists "", r. now apply fenceTail_Some.
  - intros Hs. destruct (IH Hs) as (a & b & ->). now exists (String c a), b.
Qed.

Lemma hasFence_false s :
  hasFence s = false <-> forall a b, s <> a ++ fence ++ b.
Proof.
  split.
  - intros Hs a b ->. rewrite hasFence_app in Hs. discriminate.
  - intros Hs. destruct (hasFence s) eqn:E; [|reflexivity].
    destruct (hasFence_true s E) as (a & b & ->). now elim (Hs a b).
Qed.

(** A text without a fence is left as it is by both replacements. *)
Lemma replaceFenceOpen_clean s :
  hasFence s = false -> replaceFenceOpen 0 s = s.
Proof.
  induction s as [|c s IH]; [reflexivity|]. cbn [hasFence replaceFenceOpen].
  destruct (fenceTail (String c s)); [discriminate|].
  intros Hs. now rewrite IH.
Qed.

Lemma replaceFence_id s : hasFence s = false -> replaceFence s = s.
Proof.
  induction s as [|c s IH]; [reflexivity|]. cbn [hasFence].
  destruct (fenceTail (String c s)) eqn:Ef; [discriminate|].
  intros Hs. now rewrite (replaceFence_other c s Ef), IH.
Qed.

End FenceFacts.

Section ServiceFacts.
Import Pricer AiService.
Local Open Scope string_scope.

Lemma orElse_nonempty s fallback : fallback <> "" -> orElse s fallback <> "".
Proof. intros Hf. destruct s as [[|c t]|]; cbn; [exact Hf|discriminate|exact Hf]. Qed.

Lemma analyzeSwapDeal_nonempty h env deal result :
  exists s, analyzeSwapDeal h env deal result = Fulfilled s /\ s <> "".
Proof.
  unfold analyzeSwapDeal. destruct (negb _).
  - eexists. split; [reflexivity|discriminate].
  - destruct (generateContent env _ _) as [response|].
    + eexists. split; [reflexivity|]. apply orElse_nonempty. discriminate.
    + eexists. split; [reflexivity|discriminate].
Qed.

Lemma truthy_nonempty s : s <> "" -> truthy (Some s) = true.
Proof. now destruct s. Qed.

End ServiceFacts.

Section ServiceExtras.
Import Pricer AiService ResultsPage PricingCode Examples.
Local Open Scope string_scope.

(** X17.  [analyzeSwapDeal] never resolves to the empty string: each of
    its four outcomes is a non-empty text. *)
Theorem analysis_is_never_empty h env deal result :
  exists s, analyzeSwapDeal h env deal result = Fulfilled s /\ s <> "".
Proof. apply analyzeSwapDeal_nonempty. Qed.

(** X18.  [handleAiAnalyze] ends with the loading flag cleared and the
    analysis set to what [analyzeSwapDeal] resolved to, so its [catch]
    branch never runs.  The analysis is not empty: the panel with the
    analysis is shown and the "Run Analysis" button is gone.  The
    cashflow toggle is untouched. *)
Theorem handleAiAnalyze_shows_analysis h env deal result st :
  let st' := handleAiAnalyze h env deal result st in
  analyzeSwapDeal h env deal result = Fulfilled (aiAnalysis st')
  /\ loadingAi st' = false
  /\ showCashflows st' = showCashflows st
  /\ showsAnalysis st' = true
  /\ showsRunButton st' = false.
Proof.
  cbv zeta. unfold handleAiAnalyze, showsAnalysis, showsRunButton.
  destruct (analyzeSwapDeal_nonempty h env deal result) as (s & -> & Hs).
  cbn [setLoadingAi setAiAnalysis aiAnalysis loadingAi showCashflows].
  rewrite (truthy_nonempty s Hs). repeat split.
Qed.

(** X19.  [generatePricingCode] never rejects.  It resolves to the "API
    Key missing" comment when no API key is configured, without asking
    the model; to the failure comment when the remote call rejects; and
    otherwise to the model's text, or the "No code generated" comment
    when that text is undefined or empty, with the two fence patterns
    removed. *)
Theorem generatePricingCode_never_rejects h env deal language :
  exists s,
    generatePricingCode h env deal language = Fulfilled s
    /\ (truthy (API_KEY env) = false ->
        s = "// API Key missing. Unable to generate code.")
    /\ (truthy (API_KEY env) = true ->
        (generateContent env "gemini-2.5-flash" (codePrompt h deal language)
         = Rejected ->
         s = "// Failed to generate code. Please check your connection.")
        /\ (forall response,
              generateContent env "gemini-2.5-flash"
                (codePrompt h deal language) = Fulfilled response ->
              (forall t, text response = Some t -> t <> "" ->
                 s = replaceFence (replaceFenceOpen 0 t))
              /\ (text response = Some "" \/ text response = None ->
                  s = "// No code generated."))).
Proof.
  unfold generatePricingCode. destruct (truthy (API_KEY env)); cbn [negb].
  - destruct (generateContent env _ _) as [response|].
    + eexists. split; [reflexivity|]. split; [discriminate|]. intros _.
      split; [discriminate|]. intros r [= <-]. split.
      * intros t Ht Hne. cbv zeta.
        destruct (orElse_cases (text response) "// No code generated.")
          as (H1 & _). now rewrite (H1 t Ht Hne).
      * intros [Ht|Ht]; rewrite Ht; reflexivity.
    + eexists. split; [reflexivity|]. split; [discriminate|]. intros _.
      split; [reflexivity|]. intros r Hr. discriminate Hr.
  - eexists. split; [reflexivity|]. split; [reflexivity|discriminate].
Qed.

(** X20.  The text [generatePricingCode] resolves to never contains a
    markdown fence (three backticks in a row), whatever the model
    answered. *)
Theorem generated_code_has_no_fence h env deal language :
  exists s,
    generatePricingCode h env deal language = Fulfilled s
    /\ forall a b, s <> a ++ fence ++ b.
Proof.
  unfold generatePricingCode. destruct (negb _).
  - eexists. split; [reflexivity|]. now apply hasFence_false.
  - destruct (generateContent env _ _) as [response|].
    + eexists. split; [reflexivity|]. cbv zeta.
      apply hasFence_false, replaceFence_clean.
    + eexists. split; [reflexivity|]. now apply hasFence_false.
Qed.

(** X21.  A non-empty answer of the model that contains no fence is
    returned as it is. *)
Theorem fenceless_code_is_returned_unchanged h env deal language response t :
  truthy (API_KEY env) = true ->
  generateContent env "gemini-2.5-flash" (codePrompt h deal language)
  = Fulfilled response ->
  text response = Some t -> t <> "" ->
  (forall a b, t <> a ++ fence ++ b) ->
  generatePricingCode h env deal language = Fulfilled t.
Proof.
  intros Hkey Hgen Ht Hne Hclean. apply hasFence_false in Hclean.
  unfold generatePricingCode. rewrite Hkey, Hgen. cbn [negb]. cbv zeta.
  destruct (orElse_cases (text response) "// No code generated.")
    as (H1 & _).
  rewrite (H1 t Ht Hne), (replaceFenceOpen_clean t Hclean).
  now rewrite (replaceFence_id t Hclean).
Qed.

Lemma fenceless_code_is_returned_unchanged_witness :
  generatePricingCode exampleHost
    {| API_KEY := Some "key";
       generateContent := fun _ _ => Fulfilled {| text := Some "print(1)" |} |}
    scenarioDeal python
  = Fulfilled "print(1)".
Proof.
  apply (fenceless_code_is_returned_unchanged exampleHost
           {| API_KEY := Some "key";
              generateContent :=
                fun _ _ => Fulfilled {| text := Some "print(1)" |} |}
           scenarioDeal python {| text := Some "print(1)" |} "print(1)").
  - reflexivity.
  - reflexivity.
  - reflexivity.
  - discriminate.
  - apply hasFence_false. reflexivity.
Defined.

End ServiceExtras.

(** * Rounding keeps a power-of-two bound *)

Section RoundingBounds.
Import Rounding.

Lemma fexp_eq x : fexp prec emax x = Z.max (x - 53) (-1074).
Proof. reflexivity. Qed.

Lemma Zdigits2_lower m : 0 < m -> 2 ^ (Zdigits2 m - 1) <= m.
Proof.
  destruct m as [|p|p]; try lia. intros _. cbn [Zdigits2].
  rewrite digits2_pos_size.
  pose proof (Pos.size_le p) as Hle. apply Pos2Z.pos_le_pos in Hle.
  rewrite Pos2Z.inj_pow in Hle. change (Z.pos p~0) with (2 * Z.pos p) in Hle.
  replace (Z.pos (Pos.size p)) with (Z.succ (Z.pos (Pos.size p) - 1)) in Hle by lia.
  rewrite Z.pow_succ_r in Hle by lia. lia.
Qed.

Lemma Zdigits2_upper m : 0 < m -> m < 2 ^ Zdigits2 m.
Proof.
  destruct m as [|p|p]; try lia. intros _. cbn [Zdigits2].
  rewrite digits2_pos_size.
  pose proof (Pos.size_gt p) as Hgt. apply Pos2Z.pos_lt_pos in Hgt.
  rewrite Pos2Z.inj_pow in Hgt. exact Hgt.
Qed.

Lemma Zdigits2_pos m : 0 < m -> 0 < Zdigits2 m.
Proof. destruct m; cbn; lia. Qed.

(** A mantissa bounded by a power of two has few digits. *)
Lemma Zdigits2_le_pow m k : 0 < m -> 0 <= k -> m <= 2 ^ k -> Zdigits2 m <= k + 1.
Proof.
  intros Hm Hk Hle. pose proof (Zdigits2_lower m Hm) as Hlo.
  pose proof (Zdigits2_pos m Hm) as Hd.
  destruct (Z_le_gt_dec (Zdigits2 m) (k + 1)) as [|Hgt]; [assumption|].
  assert (2 ^ (k + 1) <= 2 ^ (Zdigits2 m - 1)) by (apply Z.pow_le_mono_r; lia).
  replace (k + 1) with (Z.succ k) in * by lia.
  rewrite Z.pow_succ_r in * by lia.
  assert (0 < 2 ^ k) by (apply Z.pow_pos_nonneg; lia). lia.
Qed.

Lemma shifted_step z n mrs :
  0 <= z -> 0 <= n -> shifted z n mrs -> shifted z (n + 1) (shr_1 mrs).
Proof.
  intros Hz Hn [Hm Hex].
  assert (Hpow : 2 ^ (n + 1) = 2 * 2 ^ n)
    by (replace (n + 1) with (Z.succ n) by lia; apply Z.pow_succ_r; lia).
  assert (Hpos : 0 < 2 ^ n) by (apply Z.pow_pos_nonneg; lia).
  assert (Hdiv : z / 2 ^ (n + 1) = z / 2 ^ n / 2).
  { rewrite Hpow, Z.mul_comm. symmetry. apply Z.div_div; lia. }
  assert (Hq : 0 <= z / 2 ^ n) by (apply Z.div_pos; lia).
  assert (Hmod : z mod 2 ^ (n + 1) = 0 ->
                 z mod 2 ^ n = 0 /\ (z / 2 ^ n) mod 2 = 0).
  { rewrite Hpow, (Z.mul_comm 2). intros H0.
    rewrite Z.rem_mul_r in H0 by lia.
    pose proof (Z.mod_pos_bound z (2 ^ n) Hpos) as Ha.
    pose proof (Z.mod_pos_bound (z / 2 ^ n) 2 ltac:(lia)) as Hb.
    revert H0 Ha Hb.
    generalize (z mod 2 ^ n), ((z / 2 ^ n) mod 2). revert Hpos.
    generalize (2 ^ n). clear. intros P HP a b H0 Ha Hb. nia. }
  destruct mrs as [m r s]. cbn [shr_m shr_r shr_s] in *. subst m.
  unfold shifted. rewrite Hdiv.
  destruct (z / 2 ^ n) as [|[p|p|]|p] eqn:Eq; cbn [shr_1 shr_m shr_r shr_s];
    try lia;
    (split; [lia|]; intros H0; apply Hmod in H0 as [H0 _];
     destruct (Hex H0) as [-> ->]; split; reflexivity).
Qed.

Lemma shifted_iter p : forall z n mrs,
  0 <= z -> 0 <= n -> shifted z n mrs ->
  shifted z (n + Zpos p) (iter_pos shr_1 p mrs).
Proof.
  induction p as [p IH|p IH|]; intros z n mrs Hz Hn Hs; cbn [iter_pos].
  - replace (n + Z.pos p~1) with (n + 1 + Z.pos p + Z.pos p) by lia.
    apply IH; [lia|lia|]. apply IH; [lia|lia|]. apply shifted_step; assumption.
  - replace (n + Z.pos p~0) with (n + Z.pos p + Z.pos p) by lia.
    apply IH; [lia|lia|]. apply IH; assumption.
  - apply shifted_step; assumption.
Qed.

Lemma shifted_exact z : shifted z 0 (shr_record_of_loc z loc_Exact).
Proof.
  unfold shifted. cbn. rewrite Z.div_1_r. split; [reflexivity|tauto].
Qed.

(** An exact mantissa shifted right and rounded to nearest stays below a
    power-of-two bound: [z <= b * 2^n] gives a result of at most [b]. *)
Lemma shr_round_bound z e n b :
  0 <= z -> 0 <= n -> z <= b * 2 ^ n ->
  let mrs := fst (shr (shr_record_of_loc z loc_Exact) e n) in
  0 <= round_nearest_even (shr_m mrs) (loc_of_shr_record mrs) <= b
  /\ snd (shr (shr_record_of_loc z loc_Exact) e n) = e + n.
Proof.
  intros Hz Hn Hb. cbv zeta. unfold shr.
  destruct n as [|p|p]; try lia; cbn [fst snd].
  - cbn [shr_record_of_loc shr_m loc_of_shr_record round_nearest_even].
    rewrite Z.mul_1_r in Hb. lia.
  - split; [|reflexivity].
    pose proof (shifted_iter p z 0 _ Hz (Z.le_refl 0) (shifted_exact z))
      as [Hm Hex].
    rewrite Z.add_0_l in *.
    assert (Hpos : 0 < 2 ^ Zpos p) by (apply Z.pow_pos_nonneg; lia).
    assert (Hq : 0 <= z / 2 ^ Zpos p) by (apply Z.div_pos; lia).
    assert (Hcase : z / 2 ^ Zpos p < b
                    \/ (z / 2 ^ Zpos p = b /\ z mod 2 ^ Zpos p = 0)).
    { pose proof (Z.div_mod z (2 ^ Zpos p) ltac:(lia)).
      pose proof (Z.mod_pos_bound z (2 ^ Zpos p) Hpos). nia. }
    destruct (iter_pos shr_1 p (shr_record_of_loc z loc_Exact)) as [m r s].
    cbn [shr_m shr_r shr_s] in *. subst m.
    destruct Hcase as [Hlt|[Heq H0]].
    + pose proof (round_nearest_even_bounds (z / 2 ^ Zpos p)
                    (loc_of_shr_record
                       {| shr_m := z / 2 ^ Zpos p; shr_r := r; shr_s := s |})).
      lia.
    + destruct (Hex H0) as [-> ->]. cbn [loc_of_shr_record round_nearest_even].
      lia.
Qed.

(** An exact mantissa shifted right and truncated. *)
Lemma shr_trunc_bound z e n :
  0 <= z -> 0 <= n ->
  shr_m (fst (shr (shr_record_of_loc z loc_Exact) e n)) = z / 2 ^ n
  /\ snd (shr (shr_record_of_loc z loc_Exact) e n) = e + n.
Proof.
  intros Hz Hn. unfold shr.
  destruct n as [|p|p]; try lia; cbn [fst snd].
  - cbn. rewrite Z.div_1_r. split; [reflexivity|lia].
  - pose proof (shifted_iter p z 0 _ Hz (Z.le_refl 0) (shifted_exact z))
      as [Hm _].
    rewrite Z.add_0_l in Hm. split; [exact Hm|reflexivity].
Qed.

End RoundingBounds.

Section RoundingBounds2.
Import Rounding.

(** Shifting an exact mantissa right by [n] places (none when [n] is not
    positive): the truncated mantissa, and a bound on the rounded one. *)
Lemma shr_exact_spec z e n :
  0 <= z ->
  exists mrs,
    shr (shr_record_of_loc z loc_Exact) e n = (mrs, e + Z.max n 0)
    /\ shr_m mrs = z / 2 ^ Z.max n 0
    /\ forall b, z <= b * 2 ^ Z.max n 0 ->
         0 <= round_nearest_even (shr_m mrs) (loc_of_shr_record mrs) <= b.
Proof.
  intros Hz. destruct (Z_le_gt_dec n 0) as [Hn|Hn].
  - rewrite Z.max_r by lia. exists (shr_record_of_loc z loc_Exact).
    split; [|split].
    + unfold shr. destruct n; try lia; rewrite Z.add_0_r; reflexivity.
    + cbn. rewrite Z.div_1_r. reflexivity.
    + intros b Hb. cbn in *. lia.
  - rewrite Z.max_l by lia.
    pose proof (shr_round_bound z e n) as Hround.
    pose proof (shr_trunc_bound z e n Hz ltac:(lia)) as [Hm He].
    destruct (shr (shr_record_of_loc z loc_Exact) e n) as [mrs e'] eqn:Hshr.
    cbn [fst snd] in *. subst e'. exists mrs. split; [reflexivity|].
    split; [exact Hm|]. intros b Hb.
    apply (Hround b Hz ltac:(lia) Hb).
Qed.

Lemma pow2_div a b : 0 <= b <= a -> 2 ^ a / 2 ^ b = 2 ^ (a - b).
Proof.
  intros Hab. replace a with (a - b + b) at 1 by lia.
  rewrite Z.pow_add_r by lia. apply Z.div_mul.
  apply Z.pow_nonzero; lia.
Qed.

(** The exponent that rounding chooses for a mantissa below [2^t] is at
    most [t]. *)
Lemma fexp_le m e t :
  0 <= m -> -1074 <= t -> belowPow2 m e t ->
  fexp prec emax (Zdigits2 m + e) <= t.
Proof.
  intros Hm Ht [He Hle]. rewrite fexp_eq.
  destruct (Z.eq_dec m 0) as [->|Hne]; [cbn [Zdigits2]; lia|].
  pose proof (Zdigits2_le_pow m (t - e) ltac:(lia) ltac:(lia) Hle). lia.
Qed.

(** Rounding an exact positive mantissa keeps a power-of-two bound on
    its value. *)
Lemma binary_round_aux_bound s m e t :
  0 < m -> -1074 <= t <= 0 -> belowPow2 m e t ->
  match binary_round_aux prec emax s m e loc_Exact with
  | S754_zero s' => s' = s
  | S754_finite s' m' e' => s' = s /\ belowPow2 (Zpos m') e' t
  | _ => False
  end.
Proof.
  intros Hm Ht Hb. pose proof Hb as [He Hle].
  unfold binary_round_aux, shr_fexp.
  set (n1 := fexp prec emax (Zdigits2 m + e) - e).
  pose proof (fexp_le m e t ltac:(lia) ltac:(lia) Hb) as Hf1.
  destruct (shr_exact_spec m e n1 ltac:(lia)) as (mrs1 & -> & _ & Hround).
  set (e1 := e + Z.max n1 0) in *.
  assert (He1 : e1 <= t) by (unfold e1, n1; lia).
  specialize (Hround (2 ^ (t - e1))).
  set (m2 := round_nearest_even (shr_m mrs1) (loc_of_shr_record mrs1)) in *.
  assert (Hm2 : 0 <= m2 <= 2 ^ (t - e1)).
  { apply Hround. rewrite <- Z.pow_add_r by lia.
    replace (t - e1 + Z.max n1 0) with (t - e) by (unfold e1; lia). exact Hle. }
  clearbody m2. clear Hround.
  set (n2 := fexp prec emax (Zdigits2 m2 + e1) - e1).
  pose proof (fexp_le m2 e1 t ltac:(lia) ltac:(lia) (conj He1 (proj2 Hm2)))
    as Hf2.
  destruct (shr_exact_spec m2 e1 n2 ltac:(lia)) as (mrs2 & -> & Hm3 & _).
  set (e3 := e1 + Z.max n2 0) in *.
  assert (He3 : e3 <= t) by (unfold e3, n2; lia).
  assert (Hbound : shr_m mrs2 <= 2 ^ (t - e3)).
  { rewrite Hm3.
    replace (t - e3) with (t - e1 - Z.max n2 0) by (unfold e3; lia).
    rewrite <- (pow2_div (t - e1) (Z.max n2 0)) by (unfold e3 in *; lia).
    apply Z.div_le_mono; [apply Z.pow_pos_nonneg; lia|lia]. }
  assert (Hnonneg : 0 <= shr_m mrs2).
  { rewrite Hm3. apply Z.div_pos; [lia|apply Z.pow_pos_nonneg; lia]. }
  destruct (shr_m mrs2) as [|m3|m3]; [reflexivity| |lia].
  replace (e3 <=? emax - prec) with true
    by (symmetry; apply Z.leb_le; unfold emax, prec; lia).
  split; [reflexivity|]. split; [exact He3|exact Hbound].
Qed.

End RoundingBounds2.

Section PerturbationBound.
Import Rounding.

Lemma iter_xO_pow2 d : forall m, Zpos (Pos.iter xO m d) = Zpos m * 2 ^ Zpos d.
Proof.
  induction d as [|d IH] using Pos.peano_ind; intros m.
  - cbn. lia.
  - rewrite Pos.iter_succ, Pos2Z.inj_xO, IH, Pos2Z.inj_succ, Z.pow_succ_r by lia.
    lia.
Qed.

(** Aligning a mantissa to a smaller exponent keeps its value. *)
Lemma shl_align_spec m e e' :
  e' <= e ->
  snd (shl_align m e e') = e'
  /\ Zpos (fst (shl_align m e e')) = Zpos m * 2 ^ (e - e').
Proof.
  intros He. unfold shl_align.
  destruct (e' - e) as [|d|d] eqn:Hd; try lia; cbn [fst snd].
  - replace (e - e') with 0 by lia. split; lia.
  - rewrite iter_xO_pow2. replace (e - e') with (Zpos d) by lia. split; lia.
Qed.

Lemma belowPow2_align m e e' t :
  e' <= e -> belowPow2 (Zpos m) e t ->
  belowPow2 (Zpos (fst (shl_align m e e'))) e' t.
Proof.
  intros He [Het Hle]. destruct (shl_align_spec m e e' He) as [_ ->].
  split; [lia|].
  replace (t - e') with (t - e + (e - e')) by lia.
  rewrite Z.pow_add_r by lia.
  apply Z.mul_le_mono_nonneg_r; [apply Z.pow_nonneg; lia|exact Hle].
Qed.

(** Normalizing an exact value keeps a power-of-two bound on it. *)
Lemma binary_round_bound s z e t :
  -1074 <= t <= 0 -> belowPow2 (Zpos z) e t ->
  match binary_round prec emax s z e with
  | S754_zero s' => s' = s
  | S754_finite s' m' e' => s' = s /\ belowPow2 (Zpos m') e' t
  | _ => False
  end.
Proof.
  intros Ht Hb. unfold binary_round.
  set (f := fexp prec emax (Z.pos (digits2_pos z) + e)).
  destruct (Z_le_gt_dec f e) as [Hfe|Hfe].
  - pose proof (belowPow2_align z e f t Hfe Hb) as Hb'.
    destruct (shl_align_spec z e f Hfe) as [He' _].
    destruct (shl_align z e f) as [mz ez]. cbn [fst snd] in *. subst ez.
    apply binary_round_aux_bound; [lia|exact Ht|exact Hb'].
  - assert (Halign : shl_align z e f = (z, e)).
    { unfold shl_align. destruct (f - e) eqn:Hd; try lia; reflexivity. }
    rewrite Halign. apply binary_round_aux_bound; [lia|exact Ht|exact Hb].
Qed.

Lemma compare_cont_Lt (p q : positive) :
  Pos.compare_cont Eq p q = Lt -> Z.pos p < Z.pos q.
Proof. intros H. now apply Pos2Z.pos_lt_pos. Qed.

Lemma compare_cont_Gt (p q : positive) :
  Pos.compare_cont Eq p q = Gt -> Z.pos q < Z.pos p.
Proof. intros H. now apply Pos2Z.pos_lt_pos, Pos.compare_gt_iff. Qed.

(** A canonical float whose magnitude is at most [2^-2] compares as
    between [-0.25] and [0.25]. *)
Lemma quarter_compare s m e :
  SpecFloat.valid_binary prec emax (S754_finite s m e) = true ->
  belowPow2 (Zpos m) e (-2) ->
  SFleb (S754_finite true 4503599627370496 (-54)) (S754_finite s m e) = true
  /\ SFleb (S754_finite s m e) (S754_finite false 4503599627370496 (-54)) = true.
Proof.
  intros Hvalid [He Hle].
  unfold SpecFloat.valid_binary, bounded, canonical_mantissa in Hvalid.
  apply andb_prop in Hvalid as [Hcanon _]. apply Z.eqb_eq in Hcanon.
  rewrite fexp_eq in Hcanon.
  assert (Hcase : e < -54 \/ (e = -54 /\ Zpos m <= 4503599627370496)).
  { destruct (Z_lt_le_dec e (-54)) as [|Hge]; [left; assumption|right].
    pose proof (Zdigits2_lower (Zpos m) ltac:(lia)) as Hlo.
    cbn [Zdigits2] in Hlo.
    assert (Hd : Z.pos (digits2_pos m) = 53) by lia.
    rewrite Hd in Hlo. change (2 ^ (53 - 1)) with 4503599627370496 in Hlo.
    assert (Hpow : 2 ^ (-2 - e) <= 2 ^ 52) by (apply Z.pow_le_mono_r; lia).
    change (2 ^ 52) with 4503599627370496 in Hpow.
    destruct (Z.eq_dec e (-54)) as [->|Hne]; [split; [reflexivity|lia]|].
    assert (Hpow' : 2 ^ (-2 - e) <= 2 ^ 51) by (apply Z.pow_le_mono_r; lia).
    change (2 ^ 51) with 2251799813685248 in Hpow'. lia. }
  destruct s; split.
  - unfold SFleb, SFcompare.
    destruct Hcase as [Hlt|[-> Hm]].
    + rewrite (proj2 (Z.compare_gt_iff (-54) e)) by lia. reflexivity.
    + rewrite Z.compare_refl.
      destruct (Pos.compare_cont Eq 4503599627370496 m) eqn:Ec;
        [reflexivity| |reflexivity].
      pose proof (compare_cont_Lt _ _ Ec) as Hlt.
      clear - Hlt Hm. lia.
  - reflexivity.
  - reflexivity.
  - unfold SFleb, SFcompare.
    destruct Hcase as [Hlt|[-> Hm]].
    + rewrite (proj2 (Z.compare_lt_iff e (-54))) by lia. reflexivity.
    + rewrite Z.compare_refl.
      destruct (Pos.compare_cont Eq m 4503599627370496) eqn:Ec;
        [reflexivity|reflexivity|].
      pose proof (compare_cont_Gt _ _ Ec) as Hgt.
      clear - Hgt Hm. lia.
Qed.

(** Half of a float in [0, 1) is zero or a positive float of value at
    most [2^-1]. *)
Lemma half_of_unit u :
  (0 <=? u)%float = true -> (u <? 1)%float = true ->
  match Prim2SF (u * 0.5) with
  | S754_zero _ => True
  | S754_finite s m e => s = false /\ belowPow2 (Zpos m) e (-1)
  | _ => False
  end.
Proof.
  rewrite leb_spec, ltb_spec, mul_spec.
  change (Prim2SF 0) with (S754_zero false).
  change (Prim2SF 1) with (S754_finite false 4503599627370496 (-52)).
  change (Prim2SF 0.5) with (S754_finite false 4503599627370496 (-53)).
  pose proof (Prim2SF_valid u) as Hvalid.
  destruct (Prim2SF u) as [s|s| |s m e]; cbn [SF64mul SFmul]; try discriminate.
  - trivial.
  - destruct s; discriminate.
  - unfold SFleb, SFltb, SFcompare. destruct s; [discriminate|]. intros _ Hlt.
    unfold SpecFloat.valid_binary, bounded, canonical_mantissa in Hvalid.
    apply andb_prop in Hvalid as [Hcanon _]. apply Z.eqb_eq in Hcanon.
    rewrite fexp_eq in Hcanon.
    pose proof (Zdigits2_upper (Zpos m) ltac:(lia)) as Hup.
    cbn [Zdigits2] in Hup.
    assert (Hm53 : Zpos m < 2 ^ 53).
    { assert (2 ^ Z.pos (digits2_pos m) <= 2 ^ 53)
        by (apply Z.pow_le_mono_r; lia). lia. }
    assert (Hunit : belowPow2 (Zpos m) e 0).
    { destruct (Z.compare_spec e (-52)) as [->|Hlt'|Hgt']; [| |discriminate].
      - destruct (Pos.compare_cont Eq m 4503599627370496) eqn:Ec;
          try discriminate.
        pose proof (compare_cont_Lt _ _ Ec) as Hlt'. split; [lia|].
        change (2 ^ (0 - -52)) with 4503599627370496.
        clear - Hlt'. lia.
      - split; [lia|].
        assert (2 ^ 53 <= 2 ^ (0 - e)) by (apply Z.pow_le_mono_r; lia). lia. }
    cbn [xorb].
    pose proof (binary_round_aux_bound false
                  (Zpos (m * 4503599627370496)) (e + -53) (-1)
                  ltac:(lia) ltac:(lia)) as Hround.
    destruct Hunit as [He Hle].
    assert (Hb : belowPow2 (Zpos (m * 4503599627370496)) (e + -53) (-1)).
    { split; [lia|]. rewrite Pos2Z.inj_mul.
      replace (-1 - (e + -53)) with (0 - e + 52) by lia.
      rewrite Z.pow_add_r by lia. change (2 ^ 52) with 4503599627370496.
      apply Z.mul_le_mono_nonneg_r; [lia|exact Hle]. }
    specialize (Hround Hb).
    destruct (binary_round_aux prec emax false _ _ loc_Exact)
      as [s'|s'| |s' m' e']; try contradiction; [trivial|exact Hround].
Qed.

(** The perturbation of a floating rate lies between -0.25 and 0.25. *)
Lemma perturbation_bounds u :
  (0 <=? u)%float = true -> (u <? 1)%float = true ->
  (-0.25 <=? u * 0.5 - 0.25)%float = true
  /\ (u * 0.5 - 0.25 <=? 0.25)%float = true.
Proof.
  intros H0 H1. pose proof (half_of_unit u H0 H1) as Hhalf.
  pose proof (Prim2SF_valid (u * 0.5 - 0.25)) as Hvalid.
  rewrite !leb_spec. rewrite sub_spec in *.
  change (Prim2SF 0.25) with (S754_finite false 4503599627370496 (-54)) in *.
  change (Prim2SF (-0.25)) with (S754_finite true 4503599627370496 (-54)).
  destruct (Prim2SF (u * 0.5)) as [s|s| |s m e]; try contradiction.
  - cbn [SF64sub SFsub negb]. split; reflexivity.
  - destruct Hhalf as [-> [He Hle]].
    unfold SF64sub, SFsub, cond_Zopp in *.
    set (ez := Z.min e (-54)) in *.
    destruct (shl_align_spec m e ez ltac:(unfold ez; lia)) as [_ Ha].
    destruct (shl_align_spec 4503599627370496 (-54) ez ltac:(unfold ez; lia))
      as [_ Hb].
    set (a := Zpos (fst (shl_align m e ez))) in *.
    set (b := Zpos (fst (shl_align 4503599627370496 (-54) ez))) in *.
    assert (Hb' : b = 2 ^ (-2 - ez)).
    { rewrite Hb. change 4503599627370496 with (2 ^ 52).
      rewrite <- Z.pow_add_r by (unfold ez; lia). f_equal. lia. }
    assert (Ha' : 0 < a <= 2 * b).
    { split; [unfold a; lia|]. rewrite Ha, Hb'.
      replace (2 * 2 ^ (-2 - ez)) with (2 ^ (-1 - e) * 2 ^ (e - ez)).
      - apply Z.mul_le_mono_nonneg_r; [apply Z.pow_nonneg; lia|exact Hle].
      - rewrite <- Z.pow_add_r by (unfold ez; lia).
        replace (-1 - e + (e - ez)) with (Z.succ (-2 - ez)) by lia.
        apply Z.pow_succ_r. unfold ez. lia. }
    assert (Hz : belowPow2 (Z.abs (a - b)) ez (-2)).
    { split; [unfold ez; lia|]. rewrite <- Hb'. lia. }
    clearbody a b. unfold binary_normalize in *.
    destruct (a - b) as [|z|z] eqn:Hab.
    + split; reflexivity.
    + pose proof (binary_round_bound false z ez (-2) ltac:(lia) Hz) as Hr.
      destruct (binary_round prec emax false z ez) as [s'|s'| |s' m' e'];
        try contradiction.
      * subst s'. split; reflexivity.
      * destruct Hr as [-> Hr]. apply quarter_compare; assumption.
    + pose proof (binary_round_bound true z ez (-2) ltac:(lia) Hz) as Hr.
      destruct (binary_round prec emax true z ez) as [s'|s'| |s' m' e'];
        try contradiction.
      * subst s'. split; reflexivity.
      * destruct Hr as [-> Hr]. apply quarter_compare; assumption.
Qed.

End PerturbationBound.

Section RateExtras.
Import Pricer Spec Examples.

(** X22.  For a value [u] drawn from the random source with
    [0 <= u < 1], the effective rate of a Floating leg is its stated
    rate plus the perturbation [u * 0.5 - 0.25], which lies between
    -0.25 and 0.25 in binary64 arithmetic, and one draw is used; the
    effective rate of a Fixed leg is its stated rate, and no draw is
    used. *)
Theorem floating_rate_perturbation_bounded h leg w :
  (0 <=? Math_random h (randomCalls w))%float = true ->
  (Math_random h (randomCalls w) <? 1)%float = true ->
  match type leg with
  | Fixed => effectiveRate h leg w = JS.Normal (rate leg, w)
  | Floating =>
      exists p,
        effectiveRate h leg w
        = JS.Normal ((rate leg + p)%float,
                     {| dealObject := dealObject w;
                        randomCalls := S (randomCalls w) |})
        /\ p = perturbation (Math_random h (randomCalls w))
        /\ (-0.25 <=? p)%float = true
        /\ (p <=? 0.25)%float = true
  end.
Proof.
  intros H0 H1. unfold effectiveRate. destruct (type leg).
  - destruct w. reflexivity.
  - exists (perturbation (Math_random h (randomCalls w))).
    split; [reflexivity|]. split; [reflexivity|].
    unfold perturbation. now apply perturbation_bounds.
Qed.

Lemma floating_rate_perturbation_bounded_witness :
  exists p,
    effectiveRate exampleHost (leg Floating 1000 1 "Monthly") (world smallDeal 3)
    = JS.Normal ((1 + p)%float, world smallDeal 4)
    /\ p = perturbation (Math_random exampleHost 3)
    /\ (-0.25 <=? p)%float = true
    /\ (p <=? 0.25)%float = true.
Proof.
  apply (floating_rate_perturbation_bounded exampleHost
           (leg Floating 1000 1 "Monthly") (world smallDeal 3));
    vm_compute; reflexivity.
Defined.

Lemma cyclicRandom_unit k :
  (0 <=? cyclicRandom k)%float = true /\ (cyclicRandom k <? 1)%float = true.
Proof.
  unfold cyclicRandom.
  assert (Hcases : Z.of_nat k mod 4 = 0 \/ Z.of_nat k mod 4 = 1
                   \/ Z.of_nat k mod 4 = 2 \/ Z.of_nat k mod 4 = 3) by lia.
  destruct Hcases as [->|[->|[->| ->]]]; vm_compute; split; reflexivity.
Qed.

(** C7.  With a random source that returns values [u] with
    [0 <= u < 1], in every row of every run each leg's flow is computed
    from an effective rate: for a Floating leg its stated rate plus the
    perturbation [u * 0.5 - 0.25] of the value [u] drawn for that leg in
    that period, which lies between -0.25 and 0.25; for a Fixed leg its
    stated rate unchanged. *)
Theorem C7_effective_rate h deal st :
  (forall k, (0 <=? Math_random h k)%float = true
             /\ (Math_random h k <? 1)%float = true) ->
  exists rows w',
    generateSmartCashflows h (world deal st) = JS.Normal (rows, w')
    /\ forall i row, nth_error rows i = Some row ->
       let n := (st + i * drawsPerRow deal)%nat in
       exists rate1 rate2,
         leg1Flow row
         = Num.toFixedNumber 2
             (interest (leg1 deal) rate1 (timeFraction deal))
         /\ leg2Flow row
            = Num.toFixedNumber 2
                (- interest (leg2 deal) rate2 (timeFraction deal))%float
         /\ match type (leg1 deal) with
            | Fixed => rate1 = rate (leg1 deal)
            | Floating =>
                exists p,
                  rate1 = (rate (leg1 deal) + p)%float
                  /\ p = perturbation (Math_random h n)
                  /\ (-0.25 <=? p)%float = true
                  /\ (p <=? 0.25)%float = true
            end
         /\ match type (leg2 deal) with
            | Fixed => rate2 = rate (leg2 deal)
            | Floating =>
                exists p,
                  rate2 = (rate (leg2 deal) + p)%float
                  /\ p = perturbation
                           (Math_random h (n + draws (leg1 deal)))
                  /\ (-0.25 <=? p)%float = true
                  /\ (p <=? 0.25)%float = true
            end.
Proof.
  intros Hunit.
  destruct (generateSmartCashflows_run h deal st) as (n & Hrun & _).
  eexists _, _. split; [exact Hrun|].
  intros i row Hrow. apply nth_error_rowsOf in Hrow as [_ ->]. cbv zeta.
  exists (effectiveRateAt h (leg1 deal) (st + i * drawsPerRow deal)),
         (effectiveRateAt h (leg2 deal)
            (st + i * drawsPerRow deal + draws (leg1 deal))).
  unfold rowAt. cbn [leg1Flow leg2Flow].
  split; [reflexivity|]. split; [reflexivity|].
  unfold effectiveRateAt. split.
  - destruct (type (leg1 deal)); [reflexivity|].
    eexists. split; [reflexivity|]. split; [reflexivity|].
    unfold perturbation. apply perturbation_bounds; apply Hunit.
  - destruct (type (leg2 deal)); [reflexivity|].
    eexists. split; [reflexivity|]. split; [reflexivity|].
    unfold perturbation. apply perturbation_bounds; apply Hunit.
Qed.

Lemma C7_effective_rate_witness :
  exists rows w',
    generateSmartCashflows exampleHost (world floatingDeal 0)
    = JS.Normal (rows, w')
    /\ List.length rows = 2%nat
    /\ forall i row, nth_error rows i = Some row ->
       exists rate1 rate2 p1 p2,
         leg1Flow row
         = Num.toFixedNumber 2
             (interest (leg1 floatingDeal) rate1 (timeFraction floatingDeal))
         /\ leg2Flow row
            = Num.toFixedNumber 2
                (- interest (leg2 floatingDeal) rate2
                     (timeFraction floatingDeal))%float
         /\ rate1 = (1.25 + p1)%float /\ rate2 = (3.75 + p2)%float
         /\ (-0.25 <=? p1)%float = true /\ (p1 <=? 0.25)%float = true
         /\ (-0.25 <=? p2)%float = true /\ (p2 <=? 0.25)%float = true.
Proof.
  destruct (C7_effective_rate exampleHost floatingDeal 0 cyclicRandom_unit)
    as (rows & w' & Hrun & Hrows).
  exists rows, w'. split; [exact Hrun|]. split.
  { assert (Hc : generateSmartCashflows exampleHost (world floatingDeal 0)
                 = JS.Normal (rowsOf exampleHost floatingDeal 0 2,
                              world floatingDeal
                                (0 + 2 * drawsPerRow floatingDeal))).
    { apply generateSmartCashflows_count.
      - intros [|[|j]] Hj; [| |lia]; vm_compute; reflexivity.
      - vm_compute. reflexivity. }
    rewrite Hc in Hrun. injection Hrun as <- _. apply rowsOf_length. }
  intros i row Hrow.
  destruct (Hrows i row Hrow)
    as (rate1 & rate2 & H1 & H2 & (p1 & Hr1 & _ & Hlo1 & Hhi1)
        & (p2 & Hr2 & _ & Hlo2 & Hhi2)).
  exists rate1, rate2, p1, p2. repeat split; assumption.
Defined.

End RateExtras.
